(** * A shallow embedding of convex-tracer's tracing core

    The Convex component (src/component/lib.ts, schema.ts) is modelled as a
    database of three tables holding records; each mutation is a function on
    that database.  The client side (client/helpers.ts, client/index.ts,
    client/tracer-api) is modelled as a writer/exception monad whose events
    record, in order, the hooks run and the mutations issued, awaited or not.

    JavaScript numbers used as rates and durations are rationals ([Q]),
    timestamps are integers ([Z]), document ids are strings. *)

From Stdlib Require Import List String Ascii ZArith QArith Bool Lia.
From Stdlib Require Import Sorted Permutation DecimalString.
Import ListNotations.
Open Scope string_scope.
Open Scope list_scope.

(* ------------------------------------------------------------------------ *)
(** ** Values, statuses, documents (schema.ts) *)

(** A JavaScript value as it is stored in [args], [result] or metadata. *)
Inductive val :=
| VUndefined
| VNull
| VBool (b : bool)
| VNum (q : Q)
| VStr (s : string).

Inductive status := Pending | Success | Error.
Inductive severity := Info | Warn | SevError.
Inductive source := Frontend | Backend.

Definition Id := string.

(** Document ids.  A Convex id encodes the table it belongs to: the
    validator [v.id(table)] and [ctx.db.get(table, id)] refuse a string that
    is not an id of that table.  Here an id of [traces], [spans] or [logs]
    is the table's letter [t], [s] or [l] followed by decimal digits. *)
Inductive table := Traces | Spans | Logs.

Definition table_letter (tb : table) : ascii :=
  match tb with Traces => "t" | Spans => "s" | Logs => "l" end%char.

Definition is_digit (c : ascii) : bool :=
  Nat.leb 48 (nat_of_ascii c) && Nat.leb (nat_of_ascii c) 57.

Definition valid_id (tb : table) (id : Id) : bool :=
  match id with
  | String c rest =>
      Ascii.eqb c (table_letter tb) && negb (String.eqb rest "") &&
      forallb is_digit (list_ascii_of_string rest)
  | EmptyString => false
  end.

(** A thrown value: an [Error] object carries a message; any other thrown
    value is a plain JavaScript value. *)
Inductive Exn :=
| ErrorObj (message : string)
| Thrown (v : val).

(** The truthiness test [if (x)] of JavaScript on an optional string. *)
Definition truthy_str (s : option string) : bool :=
  match s with
  | Some x => negb (String.eqb x "")
  | None => false
  end.

(** [if (x)] on a defined number ([NaN] is not modelled). *)
Definition truthy_num (q : Q) : bool := negb (Qeq_bool q 0).

Record Trace := mkTrace {
  tr_id : Id;
  tr_creationTime : Z;
  tr_status : status;
  tr_sampleRate : Q;
  tr_preserve : option bool;
  tr_updatedAt : Z;
  tr_userId : option string;
}.

Record Span := mkSpan {
  sp_id : Id;
  sp_creationTime : Z;
  sp_traceId : Id;
  sp_parentSpanId : option Id;
  sp_spanName : string;
  sp_source : source;
  sp_startTime : Z;
  sp_endTime : option Z;
  sp_duration : option Z;
  sp_status : status;
  sp_functionName : option string;
  sp_args : val;
  sp_result : val;
  sp_error : option string;
}.

Record Log := mkLog {
  lg_id : Id;
  lg_creationTime : Z;
  lg_spanId : Id;
  lg_timestamp : Z;
  lg_severity : severity;
  lg_message : string;
}.

(** A job of the Convex scheduler: [runAfter(delay, cleanupTrace, {traceId})]. *)
Record Job := mkJob { job_delay : Q; job_traceId : Id }.

(** The component's database, with the platform's clock and id supply. *)
Record DB := mkDB {
  traces : list Trace;
  spans : list Span;
  logs : list Log;
  scheduled : list Job;
  now : Z;
  next_id : nat;
}.

(** The id the platform gives the next document inserted into table [tb]. *)
Definition fresh_id (tb : table) (db : DB) : Id :=
  String (table_letter tb) (NilZero.string_of_uint (Nat.to_uint (next_id db))).

(** The stored trace or span with the given id, if any. *)
Definition get_trace (db : DB) (id : Id) : option Trace :=
  find (fun t => String.eqb (tr_id t) id) (traces db).

Definition get_span (db : DB) (id : Id) : option Span :=
  find (fun s => String.eqb (sp_id s) id) (spans db).

(** The exception of [ctx.db.get] on a string that is not an id of the table. *)
Definition invalid_id_error (id : Id) : Exn :=
  ErrorObj ("Invalid argument id for db.get: " ++ id)%string.

(** [ctx.db.get("traces", id)] and [ctx.db.get("spans", id)]. *)
Definition db_get_trace (db : DB) (id : Id) : Exn + option Trace :=
  if valid_id Traces id then inr (get_trace db id) else inl (invalid_id_error id).

Definition db_get_span (db : DB) (id : Id) : Exn + option Span :=
  if valid_id Spans id then inr (get_span db id) else inl (invalid_id_error id).

Definition set_traces (db : DB) (ts : list Trace) : DB :=
  mkDB ts (spans db) (logs db) (scheduled db) (now db) (next_id db).
Definition set_spans (db : DB) (ss : list Span) : DB :=
  mkDB (traces db) ss (logs db) (scheduled db) (now db) (next_id db).
Definition set_logs (db : DB) (ls : list Log) : DB :=
  mkDB (traces db) (spans db) ls (scheduled db) (now db) (next_id db).

(** [ctx.db.delete(id)] on each table. *)
Definition delete_log (db : DB) (id : Id) : DB :=
  set_logs db (filter (fun l => negb (String.eqb (lg_id l) id)) (logs db)).
Definition delete_span (db : DB) (id : Id) : DB :=
  set_spans db (filter (fun s => negb (String.eqb (sp_id s) id)) (spans db)).
Definition delete_trace (db : DB) (id : Id) : DB :=
  set_traces db (filter (fun t => negb (String.eqb (tr_id t) id)) (traces db)).

(** The [by_traceId] and [by_spanId] index scans. *)
Definition spans_by_traceId (db : DB) (traceId : Id) : list Span :=
  filter (fun s => String.eqb (sp_traceId s) traceId) (spans db).

Definition logs_by_spanId (db : DB) (spanId : Id) : list Log :=
  filter (fun l => String.eqb (lg_spanId l) spanId) (logs db).

(* ------------------------------------------------------------------------ *)
(** ** Cleanup (lib.ts, [cleanupTrace] and [deleteTrace]) *)

(** [deleteTrace]: the deletions are issued together inside one mutation
    ([Promise.all]); in the transaction they take effect as a whole, here in
    the order of the array [deletionRequests]. *)
Definition deleteTrace (db : DB) (traceId : Id) : DB :=
  let spans' := spans_by_traceId db traceId in
  let logs' := map (fun s => logs_by_spanId db (sp_id s)) spans' in
  let db1 := fold_left delete_log (map lg_id (List.concat logs')) db in
  let db2 := fold_left delete_span (map sp_id spans') db1 in
  delete_trace db2 traceId.

(** [cleanupTrace]; [random] is the value [Math.random()] returns, used only
    on the sampling branch. *)
Definition cleanupTrace (db : DB) (traceId : Id) (random : Q) : DB :=
  match get_trace db traceId with
  | None => db
  | Some trace =>
      match tr_preserve trace with
      | Some true => db
      | Some false => deleteTrace db (tr_id trace)
      | None =>
          if Qle_bool (tr_sampleRate trace) random
          then deleteTrace db (tr_id trace) else db
      end
  end.

(** After [deleteTrace] nothing of the trace is left: neither the trace,
    nor a span with its id, nor a log of one of its spans. *)
Definition trace_fully_deleted (before after : DB) (traceId : Id) : Prop :=
  get_trace after traceId = None /\
  (forall s, In s (spans after) -> sp_traceId s <> traceId) /\
  (forall l s, In l (logs after) -> In s (spans before) ->
     sp_traceId s = traceId -> lg_spanId l <> sp_id s).

(** Whether the trace is still stored. *)
Definition trace_kept (db : DB) (traceId : Id) : bool :=
  match get_trace db traceId with Some _ => true | None => false end.

(* ------------------------------------------------------------------------ *)
(** ** The other mutations and queries of lib.ts *)

(** [error.message] on a caught value: reading a property of [null] or
    [undefined] throws a [TypeError]; a boolean, number or string has no
    [message] property ([undefined]). *)
Definition read_message (e : Exn) : Exn + option string :=
  match e with
  | ErrorObj m => inr (Some m)
  | Thrown VNull => inl (ErrorObj "Cannot read properties of null (reading 'message')")
  | Thrown VUndefined =>
      inl (ErrorObj "Cannot read properties of undefined (reading 'message')")
  | Thrown _ => inr None
  end.

(** Whether [error.message] can be read on a caught value. *)
Definition message_readable (e : Exn) : bool :=
  match read_message e with inl _ => false | inr _ => true end.

(** [String(n)] of a JavaScript number: written in fixed notation with the
    shortest digits that denote it, which is exact here for a number
    [10^-6 <= |n| < 10^21] of at most 15 significant digits (at most 20
    decimals are written). *)
Fixpoint frac_digits (fuel : nat) (r den : Z) : list ascii :=
  match fuel with
  | O => []
  | S f =>
      if Z.eqb r 0 then []
      else ascii_of_nat (48 + Z.to_nat ((r * 10) / den)%Z)%nat
             :: frac_digits f ((r * 10) mod den)%Z den
  end.

Definition number_to_string (q : Q) : string :=
  let n := Qnum q in
  let d := Zpos (Qden q) in
  let sign := if Z.ltb n 0 then "-" else "" in
  let a := Z.abs n in
  let int_part := NilZero.string_of_int (Z.to_int (a / d)%Z) in
  match frac_digits 20 (a mod d)%Z d with
  | [] => (sign ++ int_part)%string
  | ds => (sign ++ int_part ++ "." ++ string_of_list_ascii ds)%string
  end.

(** [String(v)]. *)
Definition js_String (v : val) : string :=
  match v with
  | VUndefined => "undefined"
  | VNull => "null"
  | VBool true => "true"
  | VBool false => "false"
  | VNum q => number_to_string q
  | VStr s => s
  end.

(** [error instanceof Error ? error.message : String(error)]. *)
Definition error_text (e : Exn) : string :=
  match e with ErrorObj m => m | Thrown v => js_String v end.

(** Arguments of [createTrace] as the caller builds them; a field the
    caller's object literal omits is [None]. *)
Record CreateTraceArgs := mkCreateTraceArgs {
  ct_status : status;
  ct_sampleRate : Q;
  ct_source : source;
  ct_userId : option string;
}.

(** [createTrace]: the argument validator
    [userId: v.union(v.literal("anonymous"), v.string())] makes [userId] a
    required field, so a call without it is rejected before the handler. *)
Definition createTrace (db : DB) (args : CreateTraceArgs) : Exn + (DB * Id) :=
  match ct_userId args with
  | None => inl (ErrorObj "ArgumentValidationError: Object is missing the required field `userId`")
  | Some userId =>
      let id := fresh_id Traces db in
      inr (mkDB (traces db ++ [mkTrace id (now db) (ct_status args)
                                  (ct_sampleRate args) None (now db) (Some userId)])
                (spans db) (logs db) (scheduled db) (now db) (S (next_id db)),
           id)
  end.

(** The [span] argument of [createSpan]. *)
Record SpanArgs := mkSpanArgs {
  sa_parentSpanId : option string;
  sa_spanName : string;
  sa_source : source;
  sa_startTime : Z;
  sa_status : status;
  sa_functionName : option string;
  sa_args : val;
}.

(** The insert of a document that does not match the schema throws. *)
Definition schema_error (tableName : string) : Exn :=
  ErrorObj ("Failed to insert or update a document in table " ++ tableName ++
            " because it does not match the schema")%string.

(** [createSpan]: an empty (falsy) [parentSpanId] is stored as absent.  The
    argument validators take any strings, but [ctx.db.insert] checks the
    document against the schema: [traceId] is a [v.id("traces")] and
    [parentSpanId] a [v.optional(v.id("spans"))].  The id must be of the
    right form and table; the document it names need not exist. *)
Definition createSpan (db : DB) (traceId : Id) (span : SpanArgs) : Exn + (DB * Id) :=
  let id := fresh_id Spans db in
  let parent := if truthy_str (sa_parentSpanId span) then sa_parentSpanId span else None in
  if valid_id Traces traceId &&
     match parent with Some p => valid_id Spans p | None => true end
  then
    inr (mkDB (traces db)
              (spans db ++ [mkSpan id (now db) traceId parent (sa_spanName span)
                              (sa_source span) (sa_startTime span) None None
                              (sa_status span) (sa_functionName span) (sa_args span)
                              VUndefined None])
              (logs db) (scheduled db) (now db) (S (next_id db)),
         id)
  else inl (schema_error "spans").

(** [ctx.db.patch] on a trace or a span: it throws when no stored document
    has the id (a string that is not an id of the table included; one
    message stands for the platform's). *)
Definition patch_trace (db : DB) (id : Id) (f : Trace -> Trace) : Exn + DB :=
  match get_trace db id with
  | None => inl (ErrorObj "Update on nonexistent document")
  | Some _ =>
      inr (set_traces db (map (fun t => if String.eqb (tr_id t) id then f t else t) (traces db)))
  end.

Definition patch_span (db : DB) (id : Id) (f : Span -> Span) : Exn + DB :=
  match get_span db id with
  | None => inl (ErrorObj "Update on nonexistent document")
  | Some _ =>
      inr (set_spans db (map (fun s => if String.eqb (sp_id s) id then f s else s) (spans db)))
  end.

(** [updateTraceStatus]. *)
Definition updateTraceStatus (db : DB) (traceId : Id) (st : status) : Exn + DB :=
  patch_trace db traceId (fun t =>
    mkTrace (tr_id t) (tr_creationTime t) st (tr_sampleRate t) (tr_preserve t)
            (now db) (tr_userId t)).

(** [updateTracePreserve]: the patch writes [preserve] as given (a field
    patched to [undefined] is removed) and [sampleRate] only when the
    argument is truthy ([if (sampleRate) srUpdate.sampleRate = sampleRate]). *)
Definition updateTracePreserve (db : DB) (traceId : Id) (preserve : option bool)
    (sampleRate : option Q) : Exn + DB :=
  patch_trace db traceId (fun t =>
    mkTrace (tr_id t) (tr_creationTime t) (tr_status t)
            (match sampleRate with
             | Some sr => if truthy_num sr then sr else tr_sampleRate t
             | None => tr_sampleRate t
             end)
            preserve (now db) (tr_userId t)).

(** [completeSpan]. *)
Definition completeSpan (db : DB) (spanId : Id) (endTime duration : Z) (st : status)
    (result : val) (error : option string) : Exn + DB :=
  patch_span db spanId (fun s =>
    mkSpan (sp_id s) (sp_creationTime s) (sp_traceId s) (sp_parentSpanId s)
           (sp_spanName s) (sp_source s) (sp_startTime s) (Some endTime)
           (Some duration) st (sp_functionName s) (sp_args s) result error).

(** [addLog]: it throws when the span is gone. *)
Definition addLog (db : DB) (spanId : Id) (sev : severity) (message : string) : Exn + DB :=
  match db_get_span db spanId with
  | inl e => inl e
  | inr None => inl (ErrorObj ("Span not found: " ++ spanId)%string)
  | inr (Some span) =>
      inr (mkDB (traces db) (spans db)
                (logs db ++ [mkLog (fresh_id Logs db) (now db) (sp_id span) (now db) sev
                                   message])
                (scheduled db) (now db) (S (next_id db)))
  end.

(** [verifyTrace] and [verifySpan]. *)
Definition verifyTrace (db : DB) (traceId : Id) : Exn + bool :=
  match db_get_trace db traceId with
  | inl e => inl e
  | inr trace => inr (match trace with Some _ => true | None => false end)
  end.
Definition verifySpan (db : DB) (spanId : Id) : Exn + bool :=
  match db_get_span db spanId with
  | inl e => inl e
  | inr span => inr (match span with Some _ => true | None => false end)
  end.

(** A mutation the client issues through [ctx.runMutation], or a job it
    hands to [ctx.scheduler.runAfter]. *)
Inductive Mutation :=
| MCompleteSpan (spanId : Id) (endTime duration : Z) (st : status) (result : val)
    (error : option string)
| MUpdateTraceStatus (traceId : Id) (st : status)
| MUpdateTracePreserve (traceId : Id) (preserve : option bool) (sampleRate : option Q)
| MAddLog (spanId : Id) (sev : severity) (message : string)
| MUpdateSpanMetadata (spanId : Id)
| MRunAfter (delay : Q) (traceId : Id).

Definition apply_mutation (db : DB) (m : Mutation) : Exn + DB :=
  match m with
  | MCompleteSpan id e d st r err => completeSpan db id e d st r err
  | MUpdateTraceStatus id st => updateTraceStatus db id st
  | MUpdateTracePreserve id p sr => updateTracePreserve db id p sr
  | MAddLog id sev msg => addLog db id sev msg
  | MUpdateSpanMetadata id =>
      (* the metadata column is outside [DB] (see [updateSpanMetadata]); on
         the records here the mutation either throws or changes nothing *)
      match db_get_span db id with
      | inl e => inl e
      | inr None => inl (ErrorObj ("Span not found: " ++ id)%string)
      | inr (Some _) => inr db
      end
  | MRunAfter delay id =>
      inr (mkDB (traces db) (spans db) (logs db) (scheduled db ++ [mkJob delay id])
                (now db) (next_id db))
  end.

(* ------------------------------------------------------------------------ *)
(** ** The client: events, and a writer/exception monad for async code *)

(** What one invocation does, in program order. *)
Inductive Event :=
| EvQuery (name : string) (id : Id)   (** [await ctx.runQuery(...)] *)
| EvOnStart | EvHandler | EvOnSuccess | EvOnError
| EvAwait (m : Mutation)   (** [await ctx.runMutation(m)], or the scheduler call *)
| EvSpawn (m : Mutation)   (** [ctx.runMutation(m)] started and not awaited *)
| EvConsoleError (msg : string)
| EvWork (w : string).     (** business logic of a user block *)

(** An [async] computation: the events it performs, then a value or a
    thrown exception. *)
Definition M (A : Type) : Type := (list Event * (Exn + A))%type.

Definition ret {A} (a : A) : M A := ([], inr a).
Definition throw {A} (e : Exn) : M A := ([], inl e).
Definition lift {A} (o : Exn + A) : M A := ([], o).
Definition emit (ev : Event) : M unit := ([ev], inr tt).

Definition bind {A B} (m : M A) (f : A -> M B) : M B :=
  match snd m with
  | inl e => (fst m, inl e)
  | inr a => ((fst m ++ fst (f a))%list, snd (f a))
  end.

(** [try { m } catch (e) { h(e) }]. *)
Definition try_catch {A} (m : M A) (h : Exn -> M A) : M A :=
  match snd m with
  | inl e => ((fst m ++ fst (h e))%list, snd (h e))
  | inr a => (fst m, inr a)
  end.

(** [try { m } finally { f }]: a throw in [f] replaces the outcome of [m]. *)
Definition try_finally {A} (m : M A) (f : M unit) : M A :=
  ((fst m ++ fst f)%list, match snd f with inl e => inl e | inr _ => snd m end).

Notation "x <- m ;; k" := (bind m (fun x => k))
  (at level 61, m at next level, right associativity).
Notation "m ;;; k" := (bind m (fun _ : unit => k))
  (at level 61, right associativity).

(** JavaScript's [a ?? b] on an optional field. *)
Definition coalesce {A} (o : option A) (d : A) : A :=
  match o with Some x => x | None => d end.

Definition Qlt_bool (a b : Q) : bool := negb (Qle_bool b a).

(** [Required<TracerConfig>]: the tracer-wide defaults. *)
Record TracerConfig := mkTracerConfig {
  def_sampleRate : Q;
  def_preserveErrors : bool;
  def_retentionMinutes : Q;
}.

(** [TracedFunctionOptions & TracerConfig]; a hook is given by the outcome of
    awaiting it. *)
Record TracedFunctionOptions := mkOptions {
  opt_sampleRate : option Q;
  opt_retentionMinutes : option Q;
  opt_preserveErrors : option bool;
  opt_logReturn : bool;
  opt_onStart : option (Exn + unit);
  opt_onSuccess : option (Exn + unit);
  opt_onError : option (Exn + unit);
}.

(** [TracedResult<Output>] = [{success, data, error}]. *)
Record TracedResult := mkResult {
  success : bool;
  data : val;
  error : option string;
}.

Definition run_hook (ev : Event) (h : option (Exn + unit)) : M unit :=
  match h with None => ret tt | Some o => emit ev ;;; lift o end.

(** [executeTracedHandler] (helpers.ts), its [try]/[catch] block.  [db] is
    the database the queries read; [handler] is the outcome of
    [await handler(enhancedCtx, args)].  In the [catch] block,
    [error.message] is read when the arguments of [completeSpan] are built:
    for a thrown [null] or [undefined] that read throws a [TypeError], which
    leaves the [catch] block ([finally] still runs).  The second read, for
    the returned value, gives the same value. *)
Definition executeTracedHandler_try (db : DB) (traceId spanId : Id) (startTime : Z)
    (config : TracedFunctionOptions) (defaultConfig : TracerConfig)
    (handler : Exn + val) (isRoot : bool) : M TracedResult :=
    try_catch
       ((if truthy_str (Some traceId) then
           emit (EvQuery "verifyTrace" traceId) ;;;
           traceExists <- lift (verifyTrace db traceId) ;;
           (if traceExists then ret tt
            else throw (ErrorObj "Cannot pass a traceId for a trace that doesn't exist"))
         else ret tt) ;;;
        (if truthy_str (Some spanId) then
           emit (EvQuery "verifySpan" spanId) ;;;
           spanExists <- lift (verifySpan db spanId) ;;
           (if spanExists then ret tt
            else throw (ErrorObj "Cannot pass a spanId for a span that doesn't exist"))
         else ret tt) ;;;
        run_hook EvOnStart (opt_onStart config) ;;;
        result <- (emit EvHandler ;;; lift handler) ;;
        run_hook EvOnSuccess (opt_onSuccess config) ;;;
        let now := now db in
        emit (EvAwait (MCompleteSpan spanId now (now - startTime) Success
                         (if opt_logReturn config then result else VUndefined) None)) ;;;
        (if isRoot then emit (EvAwait (MUpdateTraceStatus traceId Success)) else ret tt) ;;;
        ret (mkResult true result None))
       (fun e =>
          run_hook EvOnError (opt_onError config) ;;;
          let preserveErrors :=
            coalesce (opt_preserveErrors config) (def_preserveErrors defaultConfig) in
          (if preserveErrors
           then emit (EvSpawn (MUpdateTracePreserve traceId (Some true) None))
           else ret tt) ;;;
          message <- lift (read_message e) ;;
          let now := now db in
          emit (EvAwait (MCompleteSpan spanId now (now - startTime) Error VUndefined
                           message)) ;;;
          (if isRoot then emit (EvAwait (MUpdateTraceStatus traceId Error)) else ret tt) ;;;
          ret (mkResult false VUndefined message)).

(** The [finally] block of [executeTracedHandler]; [runAfter_result] is the
    outcome of [await ctx.scheduler.runAfter(...)]. *)
Definition executeTracedHandler_finally (traceId : Id)
    (config : TracedFunctionOptions) (defaultConfig : TracerConfig)
    (runAfter_result : Exn + unit) : M unit :=
    let retMins :=
       coalesce (opt_retentionMinutes config) (def_retentionMinutes defaultConfig) in
     (if negb (truthy_num retMins)
      then emit (EvConsoleError "[Tracer] retentionMinutes is not defined")
      else ret tt) ;;;
     let sampleRate := coalesce (opt_sampleRate config) (def_sampleRate defaultConfig) in
     if negb (truthy_num sampleRate)
     then emit (EvConsoleError "[Tracer] sampleRate is not defined")
     else if Qlt_bool sampleRate 1 then
       let delay := retMins * 60000 in
       match runAfter_result with
       | inr _ => emit (EvAwait (MRunAfter delay traceId))
       | inl e => throw e
       end
     else ret tt.

Definition executeTracedHandler (db : DB) (traceId spanId : Id) (startTime : Z)
    (config : TracedFunctionOptions) (defaultConfig : TracerConfig)
    (handler : Exn + val) (isRoot : bool) (runAfter_result : Exn + unit)
    : M TracedResult :=
  try_finally
    (executeTracedHandler_try db traceId spanId startTime config defaultConfig handler isRoot)
    (executeTracedHandler_finally traceId config defaultConfig runAfter_result).

(* ------------------------------------------------------------------------ *)
(** ** Resolving the invocation context (helpers.ts, [setupTraceContext]) *)

(** The hidden [__traceContext] argument. *)
Record TraceContext := mkTraceContext {
  tc_traceId : Id;
  tc_spanId : Id;
  tc_sampleRate : option Q;
  tc_retentionMinutes : option Q;
  tc_preserveErrors : option bool;
}.

Record SetupResult := mkSetupResult {
  so_traceId : Id;
  so_spanId : Id;
  so_traceContext : TraceContext;
  so_isRoot : bool;
}.

(** [existingContext?.traceId] as a condition. *)
Definition has_traceId (existingContext : option TraceContext) : bool :=
  match existingContext with
  | Some tc => truthy_str (Some (tc_traceId tc))
  | None => false
  end.


(** The root branch of [setupTraceContext]: a new trace, then its root span.
    The object passed to [createTrace] has no [userId] field. *)
Definition setupRoot (db : DB) (functionName : string) (sampleRate retentionMinutes : Q)
    (preserveErrors : bool) (spanFunctionName : option string) (spanArgs : val)
    : Exn + (DB * SetupResult) :=
  match createTrace db (mkCreateTraceArgs Pending sampleRate Backend None) with
  | inl e => inl e
  | inr (db1, traceId) =>
      match createSpan db1 traceId
              (mkSpanArgs None functionName Backend (now db1) Pending
                          spanFunctionName spanArgs) with
      | inl e => inl e
      | inr (db2, spanId) =>
          inr (db2, mkSetupResult traceId spanId
                      (mkTraceContext traceId spanId (Some sampleRate)
                                      (Some retentionMinutes) (Some preserveErrors))
                      true)
      end
  end.

(** [setupTraceContext]; [spanFunctionName] and [spanArgs] are [spanData].
    Both mutations are awaited without a [catch]: a failure is thrown. *)
Definition setupTraceContext (db : DB) (existingContext : option TraceContext)
    (startTime : Z) (functionName : string) (sampleRate retentionMinutes : Q)
    (preserveErrors : bool) (spanFunctionName : option string) (spanArgs : val)
    : Exn + (DB * SetupResult) :=
  match existingContext with
  | Some ec =>
      if truthy_str (Some (tc_traceId ec)) then
        match createSpan db (tc_traceId ec)
                (mkSpanArgs (Some (tc_spanId ec)) functionName Backend startTime
                            Pending spanFunctionName spanArgs) with
        | inl e => inl e
        | inr (db1, spanId) =>
            inr (db1, mkSetupResult (tc_traceId ec) spanId
                        (mkTraceContext (tc_traceId ec) spanId (tc_sampleRate ec)
                                        (tc_retentionMinutes ec) (tc_preserveErrors ec))
                        false)
        end
      else setupRoot db functionName sampleRate retentionMinutes preserveErrors
                        spanFunctionName spanArgs
  | None => setupRoot db functionName sampleRate retentionMinutes preserveErrors
                        spanFunctionName spanArgs
  end.

(** The registered function built by [createTracedHandler] (index.ts):
    [extractTraceContext] has split the hidden token [existingContext] from
    the arguments, whose logged part ([prepareLogArgs]) is [loggedArgs].  A
    failure of [setupTraceContext] escapes the registered function. *)
Definition tracedInvoke (db : DB) (existingContext : option TraceContext)
    (functionName : string) (tConfig : TracedFunctionOptions) (tracer : TracerConfig)
    (handler : Exn + val) (loggedArgs : val) (runAfter_result : Exn + unit)
    : Exn + (DB * M TracedResult) :=
  let startTime := now db in
  match setupTraceContext db existingContext startTime functionName
          (coalesce (opt_sampleRate tConfig) (def_sampleRate tracer))
          (coalesce (opt_retentionMinutes tConfig) (def_retentionMinutes tracer))
          (coalesce (opt_preserveErrors tConfig) (def_preserveErrors tracer))
          (Some functionName) loggedArgs with
  | inl e => inl e
  | inr (db1, out) =>
      inr (db1, executeTracedHandler db1 (so_traceId out) (so_spanId out) startTime
                  tConfig tracer handler (so_isRoot out) runAfter_result)
  end.

(* ------------------------------------------------------------------------ *)
(** ** Running the issued mutations: awaited ones in order, un-awaited ones
       at any later point *)

Record Run := mkRun {
  rdb : DB;
  main : list Event;         (** what the invocation still has to do *)
  pending : list Mutation;   (** started, not awaited, not yet executed *)
  executed : list Mutation;  (** mutations executed so far, in order *)
}.

(** A mutation whose failure is caught leaves the database as it was. *)
Definition exec (db : DB) (m : Mutation) : DB :=
  match apply_mutation db m with inl _ => db | inr db' => db' end.

Inductive step : Run -> Run -> Prop :=
| step_await db m rest p x :
    step (mkRun db (EvAwait m :: rest) p x) (mkRun (exec db m) rest p (x ++ [m]))
| step_spawn db m rest p x :
    step (mkRun db (EvSpawn m :: rest) p x) (mkRun db rest (p ++ [m]) x)
| step_other db ev rest p x :
    (forall m, ev <> EvAwait m) -> (forall m, ev <> EvSpawn m) ->
    step (mkRun db (ev :: rest) p x) (mkRun db rest p x)
| step_background db mn p1 m p2 x :
    step (mkRun db mn (p1 ++ m :: p2) x) (mkRun (exec db m) mn (p1 ++ p2) (x ++ [m])).

Inductive steps : Run -> Run -> Prop :=
| steps_refl r : steps r r
| steps_cons r1 r2 r3 : step r1 r2 -> steps r2 r3 -> steps r1 r3.

(** One legal schedule: the invocation runs to its end before any
    un-awaited mutation is picked up. *)
Fixpoint run_main (db : DB) (evs : list Event) (p x : list Mutation) : Run :=
  match evs with
  | [] => mkRun db [] p x
  | EvAwait m :: rest => run_main (exec db m) rest p (x ++ [m])
  | EvSpawn m :: rest => run_main db rest (p ++ [m]) x
  | _ :: rest => run_main db rest p x
  end.

(* ------------------------------------------------------------------------ *)
(** ** The tracer handle (tracer-api, class [TracingAPI]) *)

Record TracingAPI := mkTracingAPI {
  api_traceId : Id;
  api_spanId : Id;
  api_config : TracerConfig;
}.

(** [preserve()], [discard()] and [sample(sampleRate?)]: awaited, a failure is
    caught and logged. *)
Definition api_preserve (api : TracingAPI) (db : DB) : DB :=
  exec db (MUpdateTracePreserve (api_traceId api) (Some true) None).
Definition api_discard (api : TracingAPI) (db : DB) : DB :=
  exec db (MUpdateTracePreserve (api_traceId api) (Some false) None).
Definition api_sample (api : TracingAPI) (sampleRate : option Q) (db : DB) : DB :=
  exec db (MUpdateTracePreserve (api_traceId api) None sampleRate).

(** A block [fn: (span: SpanAPI) => Promise<T>] passed to [withSpan], as the
    sequence of calls it makes on its handle.  [BWork] is business logic
    that touches no tracing state. *)
Inductive Block :=
| BRet (v : val)
| BThrow (e : Exn)
| BLog (sev : severity) (message : string) (k : Block)   (** [await span.info/warn/error] *)
| BUpdateMetadata (k : Block)                           (** [await span.updateMetadata] *)
| BWithSpan (name : string) (body : Block) (k : val -> Block)  (** [await span.withSpan] *)
| BWork (w : string) (k : Block).

(** The block run against [createNoOpSpanAPI()]: every method resolves at
    once, [withSpan] to [undefined] without calling its function. *)
Fixpoint run_noop (b : Block) : M val :=
  match b with
  | BRet v => ret v
  | BThrow e => throw e
  | BLog _ _ k => run_noop k
  | BUpdateMetadata k => run_noop k
  | BWithSpan _ _ k => run_noop (k VUndefined)
  | BWork w k => emit (EvWork w) ;;; run_noop k
  end.

(** The block run against the handle of span [spanId] ([createSpanAPI], and
    [withSpan] through [createAndRunSpan]).  [infra db = false] when
    [ctx.runMutation(createSpan, ...)] fails in state [db]. *)
Fixpoint run_span (infra : DB -> bool) (api : TracingAPI) (spanId : Id) (b : Block)
    (db : DB) {struct b} : DB * list Event * (Exn + val) :=
  match b with
  | BRet v => (db, [], inr v)
  | BThrow e => (db, [], inl e)
  | BLog sev msg k =>
      let m := MAddLog spanId sev msg in
      let '(db2, evs, r) := run_span infra api spanId k (exec db m) in
      (db2, EvAwait m :: evs, r)
  | BUpdateMetadata k =>
      let m := MUpdateSpanMetadata spanId in
      let '(db2, evs, r) := run_span infra api spanId k (exec db m) in
      (db2, EvAwait m :: evs, r)
  | BWork w k =>
      let '(db2, evs, r) := run_span infra api spanId k db in
      (db2, EvWork w :: evs, r)
  | BWithSpan name body k =>
      (* createAndRunSpan(spanId, name, body) *)
      let created :=
        if infra db then
          createSpan db (api_traceId api)
            (mkSpanArgs (Some spanId) name Backend (now db) Pending None VUndefined)
        else inl (ErrorObj "createSpan failed") in
      match created with
      | inl _ =>
          let fail := EvConsoleError "[Tracer] Failed to create child span:" in
          match run_noop body with
          | (evs, inl e) => (db, fail :: evs, inl e)
          | (evs, inr v) =>
              let '(db2, evs', r) := run_span infra api spanId (k v) db in
              (db2, (fail :: evs ++ evs')%list, r)
          end
      | inr (db1, childSpanId) =>
          let startTime := now db1 in
          let '(db2, evs, r) := run_span infra api childSpanId body db1 in
          match r with
          | inr v =>
              let m := MCompleteSpan childSpanId (now db2) (now db2 - startTime)
                         Success VUndefined None in
              let '(db4, evs', r') := run_span infra api spanId (k v) (exec db2 m) in
              (db4, (evs ++ EvAwait m :: evs')%list, r')
          | inl e =>
              let m := MCompleteSpan childSpanId (now db2) (now db2 - startTime)
                         Error VUndefined (Some (error_text e)) in
              (exec db2 m,
               (evs ++ EvAwait m ::
                  (if def_preserveErrors (api_config api)
                   then [EvSpawn (MUpdateTracePreserve (api_traceId api) (Some true) None)]
                   else []))%list,
               inl e)
          end
      end
  end.

(* ------------------------------------------------------------------------ *)
(** ** Reading a trace back as a tree (lib.ts, [getTrace]) *)

(** Stable sort by [_creationTime]: [Array.prototype.sort] with the
    comparator [(a, b) => a._creationTime - b._creationTime] (stable since
    ES2019), written as an insertion sort. *)
Fixpoint insert_by_creation (x : Span) (l : list Span) : list Span :=
  match l with
  | [] => [x]
  | y :: l' =>
      if Z.ltb (sp_creationTime x) (sp_creationTime y) then x :: y :: l'
      else y :: insert_by_creation x l'
  end.

Definition sort_by_creation (l : list Span) : list Span :=
  fold_left (fun acc x => insert_by_creation x acc) l [].

(** An element of [spansWithLogs]: the span, its logs and its [children]. *)
Record Node := mkNode {
  nd_span : Span;
  nd_logs : list Log;
  nd_children : list Span;
}.

(** [spanMap], a JavaScript [Map] keyed by span id: [set] replaces the
    value of a present key and appends a new one. *)
Definition SpanMap := list (Id * Node).

Definition map_get (m : SpanMap) (k : Id) : option Node :=
  match find (fun e => String.eqb (fst e) k) m with
  | Some (_, n) => Some n
  | None => None
  end.

Definition map_set (m : SpanMap) (k : Id) (n : Node) : SpanMap :=
  if existsb (fun e => String.eqb (fst e) k) m
  then map (fun e => if String.eqb (fst e) k then (k, n) else e) m
  else (m ++ [(k, n)])%list.

(** [spansWithLogs.forEach]: each span with a truthy [parentSpanId] whose
    parent is in the map is appended to the parent's [children].  The span
    objects are shared between the array and the map; the map is the arena
    that holds them. *)
Definition push_child (m : SpanMap) (n : Node) : SpanMap :=
  let span := nd_span n in
  if truthy_str (sp_parentSpanId span) then
    match sp_parentSpanId span with
    | Some p =>
        match map_get m p with
        | Some parentSpan =>
            map_set m p (mkNode (nd_span parentSpan) (nd_logs parentSpan)
                                (nd_children parentSpan ++ [span]))
        | None => m
        end
    | None => m
    end
  else m.

(** The returned span tree: a span with its logs and children. *)
#[local] Set Warnings "-register-all".
Inductive SpanTree :=
| STNode (span : Span) (logs : list Log) (children : list SpanTree).

Definition tree_span (t : SpanTree) : Span := match t with STNode s _ _ => s end.

(** [sortSpanChildren], followed by the serialisation of the object graph
    reachable from a root span: each [children] array is sorted in place,
    then its members are visited.  The graph below a root is a tree of at
    most as many levels as there are spans (proved below), so [fuel] levels
    of unfolding with [fuel] the number of spans render it completely. *)
Fixpoint render (fuel : nat) (m : SpanMap) (s : Span) : SpanTree :=
  match map_get m (sp_id s) with
  | None => STNode s [] []
  | Some n =>
      STNode (nd_span n) (nd_logs n)
        (match fuel with
         | O => []
         | S f => map (render f m) (sort_by_creation (nd_children n))
         end)
  end.

(** [getTrace]. *)
Definition getTrace (db : DB) (traceId : Id) : Exn + option (Trace * list SpanTree) :=
  match db_get_trace db traceId with
  | inl e => inl e
  | inr None => inr None
  | inr (Some trace) =>
      let spans' := spans_by_traceId db traceId in
      let spansWithLogs :=
        map (fun s => mkNode s (logs_by_spanId db (sp_id s)) []) spans' in
      let spanMap0 :=
        fold_left (fun m n => map_set m (sp_id (nd_span n)) n) spansWithLogs [] in
      let spanMap := fold_left push_child spansWithLogs spanMap0 in
      let rootSpans :=
        sort_by_creation
          (filter (fun s => negb (truthy_str (sp_parentSpanId s))) spans') in
      inr (Some (trace, map (render (List.length spans') spanMap) rootSpans))
  end.

(** The spans a tree node must list as children, and the logs it must list. *)
Definition option_id_eqb (a : option Id) (b : Id) : bool :=
  match a with Some x => String.eqb x b | None => false end.

Definition children_of (db : DB) (traceId : Id) (s : Span) : list Span :=
  filter (fun c => option_id_eqb (sp_parentSpanId c) (sp_id s))
         (spans_by_traceId db traceId).

Definition creation_le (a b : Span) : Prop := (sp_creationTime a <= sp_creationTime b)%Z.

Definition node_ok (db : DB) (traceId : Id) (t : SpanTree) : Prop :=
  match t with
  | STNode s ls cs =>
      Permutation (map tree_span cs) (children_of db traceId s) /\
      Sorted creation_le (map tree_span cs) /\
      ls = logs_by_spanId db (sp_id s)
  end.

(** [t] is [u] or a node below it. *)
Inductive in_tree (t : SpanTree) : SpanTree -> Prop :=
| in_tree_here : in_tree t t
| in_tree_child s ls cs c : In c cs -> in_tree t c -> in_tree t (STNode s ls cs).

(** Stored ids are unique and non-empty. *)
Definition wf_spans (l : list Span) : Prop :=
  NoDup (map sp_id l) /\ Forall (fun s => sp_id s <> "") l.

(** An ancestor chain among the spans [L]: a span, its parent, its
    grandparent, ..., ending at a root (a span without a truthy parent). *)
Inductive chain (L : list Span) : list Span -> Prop :=
| chain_root s : In s L -> truthy_str (sp_parentSpanId s) = false -> chain L [s]
| chain_cons c s ps :
    In c L -> sp_parentSpanId c = Some (sp_id s) -> chain L (s :: ps) ->
    chain L (c :: s :: ps).

(* ------------------------------------------------------------------------ *)
(** ** Concrete inputs used by the examples *)

(** A stored trace [t1] (rate 0, no decision yet) with its root span [s1]
    and one log. *)
Definition example_db : DB :=
  mkDB [mkTrace "t1" 1 Pending 0 None 1 (Some "anonymous")]
       [mkSpan "s1" 2 "t1" None "parent" Backend 2 None None Pending
               (Some "parent") VUndefined VUndefined None]
       [mkLog "l1" 3 "s1" 3 Info "started"]
       [] 10 0.

(** Two traces, [t1] discarded and [t2] undecided, each with a span and a log. *)
Definition two_traces_db : DB :=
  mkDB [mkTrace "t1" 1 Pending 0 (Some false) 1 (Some "anonymous");
        mkTrace "t2" 2 Pending 0 None 2 (Some "anonymous")]
       [mkSpan "s1" 3 "t1" None "a" Backend 3 None None Pending None VUndefined VUndefined None;
        mkSpan "s2" 4 "t2" None "b" Backend 4 None None Pending None VUndefined VUndefined None]
       [mkLog "l1" 5 "s1" 5 Info "one"; mkLog "l2" 6 "s2" 6 Info "two"]
       [] 10 0.

(** A trace [t1] whose spans form a tree stored out of creation order: roots
    [s1] (created at 2) and [s4] (at 1); [s2] (at 5) and [s3] (at 4) under
    [s1]; [s5] under [s3]; and a span [s6] of another trace [t2]. *)
Definition tree_db : DB :=
  mkDB [mkTrace "t1" 1 Pending 0 None 1 (Some "anonymous");
        mkTrace "t2" 1 Pending 0 None 1 (Some "anonymous")]
       [mkSpan "s1" 2 "t1" None "a" Backend 2 None None Pending None VUndefined VUndefined None;
        mkSpan "s2" 5 "t1" (Some "s1") "b" Backend 5 None None Pending None VUndefined
               VUndefined None;
        mkSpan "s3" 4 "t1" (Some "s1") "c" Backend 4 None None Pending None VUndefined
               VUndefined None;
        mkSpan "s4" 1 "t1" None "d" Backend 1 None None Pending None VUndefined VUndefined None;
        mkSpan "s5" 6 "t1" (Some "s3") "e" Backend 6 None None Pending None VUndefined
               VUndefined None;
        mkSpan "s6" 3 "t2" None "f" Backend 3 None None Pending None VUndefined VUndefined None]
       [mkLog "l1" 7 "s1" 7 Info "one"; mkLog "l2" 8 "s3" 8 Info "two";
        mkLog "l3" 9 "s6" 9 Info "three"]
       [] 10 10.

(** The tracer-wide defaults of index.ts ([DEFAULT_CONFIG]). *)
Definition default_tracer : TracerConfig := mkTracerConfig (1#10) true 120.

(** A traced function with no per-call overrides and no hooks. *)
Definition plain_options : TracedFunctionOptions :=
  mkOptions None None None false None None None.

(** Whether an optional hook, given by the outcome of awaiting it, completes
    without throwing. *)
Definition hook_ok (h : option (Exn + unit)) : bool :=
  match h with Some (inl _) => false | _ => true end.

(** Whether an event is the scheduling of a deferred cleanup job. *)
Definition is_runAfter (ev : Event) : bool :=
  match ev with EvAwait (MRunAfter _ _) => true | _ => false end.

(** The part of a stored trace that [cleanupTrace] reads. *)
Definition trace_policy (db : DB) (id : Id) : option (option bool * Q) :=
  option_map (fun t => (tr_preserve t, tr_sampleRate t)) (get_trace db id).

(** Events after which the cleanup policy of every trace is unchanged: all
    but the awaited mutations that write [preserve] or [sampleRate]. *)
Definition keeps_policy (ev : Event) : bool :=
  match ev with
  | EvAwait (MUpdateTracePreserve _ _ _) => false
  | _ => true
  end.

(* ------------------------------------------------------------------------ *)
(** ** Argument objects (helpers.ts, [createRunTracedFunction] of index.ts) *)

(** A plain JavaScript object, as the list of its entries in property order
    ([Object.entries]); its values have type [A]. *)
Definition Obj (A : Type) : Type := list (string * A).

(** [o[k]]; [None] is [undefined]. *)
Definition obj_get {A} (o : Obj A) (k : string) : option A :=
  option_map snd (find (fun e => String.eqb (fst e) k) o).

(** [o[k] = v]: a present key keeps its position, a new one comes last. *)
Definition obj_set {A} (o : Obj A) (k : string) (v : A) : Obj A :=
  if existsb (fun e => String.eqb (fst e) k) o
  then map (fun e => if String.eqb (fst e) k then (k, v) else e) o
  else (o ++ [(k, v)])%list.

(** [delete o[k]]. *)
Definition obj_delete {A} (o : Obj A) (k : string) : Obj A :=
  filter (fun e => negb (String.eqb (fst e) k)) o.

(** [{...o1, ...o2}]: the entries of [o2] are assigned in turn onto a copy
    of [o1]. *)
Definition obj_spread {A} (o1 o2 : Obj A) : Obj A :=
  fold_left (fun acc e => obj_set acc (fst e) (snd e)) o2 o1.

(** [pick(obj, keys)]: [Object.fromEntries] of the entries whose key is in
    [keys] ([keys.includes(k)]). *)
Definition pick {A} (obj : Obj A) (keys : list string) : Obj A :=
  filter (fun e => existsb (String.eqb (fst e)) keys) obj.

(** [extractTraceContext]: the hidden token, and a copy of the arguments
    without it. *)
Definition extractTraceContext {A} (allArgs : Obj A) : option A * Obj A :=
  let existingContext := obj_get allArgs "__traceContext" in
  let args := obj_delete allArgs "__traceContext" in
  (existingContext, args).

(** The [logArgs] option: [undefined], a boolean, or an array of argument
    names. *)
Inductive LogArgs :=
| LAUndefined
| LABool (b : bool)
| LAKeys (keys : list string).

(** [!logArgs]: an array, even an empty one, is truthy. *)
Definition logArgs_truthy (logArgs : LogArgs) : bool :=
  match logArgs with
  | LAUndefined => false
  | LABool b => b
  | LAKeys _ => true
  end.

(** [prepareLogArgs]; [None] is [undefined]. *)
Definition prepareLogArgs {A} (args : Obj A) (logArgs : LogArgs) : option (Obj A) :=
  if negb (logArgs_truthy logArgs) then None
  else match logArgs with
       | LABool true => Some args
       | LAKeys keys => Some (pick args keys)
       | _ => None
       end.

(** The arguments [createRunTracedFunction] passes to the called function:
    [{...args, __traceContext: traceContext}]. *)
Definition argsWithTrace {A} (args : Obj A) (traceContext : A) : Obj A :=
  obj_set args "__traceContext" traceContext.

(* ------------------------------------------------------------------------ *)
(** ** Metadata (lib.ts, [updateTraceMetadata] and [updateSpanMetadata]) *)

(** [{...doc.metadata, ...args.metadata}]; spreading [undefined] adds
    nothing. *)
Definition merge_metadata {A} (old : option (Obj A)) (new : Obj A) : Obj A :=
  obj_spread (coalesce old []) new.

(** The optional [metadata] column of a table, which the records [Trace]
    and [Span] leave out, by document id. *)
Definition MetaColumn : Type := Id -> option (Obj val).

Definition meta_set (meta : MetaColumn) (id : Id) (m : Obj val) : MetaColumn :=
  fun id' => if String.eqb id' id then Some m else meta id'.

(** [updateTraceMetadata]: the patch writes the merged metadata and
    [updatedAt]. *)
Definition updateTraceMetadata (db : DB) (meta : MetaColumn) (traceId : Id)
    (metadata : Obj val) : Exn + (DB * MetaColumn) :=
  match db_get_trace db traceId with
  | inl e => inl e
  | inr None => inl (ErrorObj ("Trace not found: " ++ traceId)%string)
  | inr (Some trace) =>
      match patch_trace db traceId (fun t =>
              mkTrace (tr_id t) (tr_creationTime t) (tr_status t) (tr_sampleRate t)
                      (tr_preserve t) (now db) (tr_userId t)) with
      | inl e => inl e
      | inr db' =>
          inr (db', meta_set meta traceId (merge_metadata (meta (tr_id trace)) metadata))
      end
  end.

(** [updateSpanMetadata]: it patches only the span's metadata. *)
Definition updateSpanMetadata (db : DB) (meta : MetaColumn) (spanId : Id)
    (metadata : Obj val) : Exn + MetaColumn :=
  match db_get_span db spanId with
  | inl e => inl e
  | inr None => inl (ErrorObj ("Span not found: " ++ spanId)%string)
  | inr (Some span) =>
      inr (meta_set meta (sp_id span) (merge_metadata (meta (sp_id span)) metadata))
  end.

(* ------------------------------------------------------------------------ *)
(** ** Listing traces (lib.ts, [listTraces]) *)

Definition status_eqb (a b : status) : bool :=
  match a, b with
  | Pending, Pending | Success, Success | Error, Error => true
  | _, _ => false
  end.

(** [traces db] lists the table in the order of its indexes within equal
    keys, ascending [_creationTime] ([createTrace] appends); a scan with
    [.order("desc")] of the documents satisfying [p] is then the reverse. *)
Definition scan_desc (db : DB) (p : Trace -> bool) : list Trace :=
  rev (filter p (traces db)).

(** [if (limit) return await q.take(limit); else return await q.collect();]
    with [limit] a non-negative integer; [0] is falsy. *)
Definition take_or_collect (limit : option nat) (l : list Trace) : list Trace :=
  match limit with
  | Some n => if Nat.eqb n 0 then l else firstn n l
  | None => l
  end.

(** [listTraces], branch by branch: [status] is a literal, truthy when
    given; [userId] is truthy when non-empty. *)
Definition listTraces (db : DB) (status : option status) (userId : option string)
    (limit : option nat) : list Trace :=
  match status, truthy_str userId, userId with
  | Some st, false, _ =>
      take_or_collect limit (scan_desc db (fun t => status_eqb (tr_status t) st))
  | None, true, Some uid =>
      take_or_collect limit (scan_desc db (fun t => option_id_eqb (tr_userId t) uid))
  | Some st, true, Some uid =>
      take_or_collect limit
        (scan_desc db (fun t => status_eqb (tr_status t) st &&
                                option_id_eqb (tr_userId t) uid))
  | _, _, _ => take_or_collect limit (scan_desc db (fun _ => true))
  end.

(** The filter [listTraces] is meant to apply: a given status, and a
    non-empty user id, each restrict the result. *)
Definition listTraces_filter (status : option status) (userId : option string)
    (t : Trace) : bool :=
  match status with Some st => status_eqb (tr_status t) st | None => true end &&
  match userId with
  | Some uid => if String.eqb uid "" then true else option_id_eqb (tr_userId t) uid
  | None => true
  end.

(* ------------------------------------------------------------------------ *)
(** ** Logging through the tracer handle (tracer-api, [addLog], [info],
       [warn], [error]) *)

(** The private [addLog] of [TracingAPI]: awaited, a failure is caught and
    logged. *)
Definition api_addLog (api : TracingAPI) (sev : severity) (message : string) (db : DB) : DB :=
  exec db (MAddLog (api_spanId api) sev message).

Definition api_info (api : TracingAPI) (message : string) (db : DB) : DB :=
  api_addLog api Info message db.
Definition api_warn (api : TracingAPI) (message : string) (db : DB) : DB :=
  api_addLog api Warn message db.
Definition api_error (api : TracingAPI) (message : string) (db : DB) : DB :=
  api_addLog api SevError message db.

(** The id and trace of each stored span, the part of a span that
    [completeSpan] does not patch. *)
Definition span_keys (l : list Span) : list (Id * Id) :=
  map (fun s => (sp_id s, sp_traceId s)) l.

(** From [db] to [db']: traces untouched, logs only appended, spans only
    patched in place or appended, the appended ones under trace [tid]. *)
Definition only_appends (tid : Id) (db db' : DB) : Prop :=
  traces db' = traces db /\
  (exists nl, logs db' = (logs db ++ nl)%list) /\
  (exists ns, span_keys (spans db') = (span_keys (spans db) ++ span_keys ns)%list /\
              Forall (fun s => sp_traceId s = tid) ns).

(** Every stored log belongs to a stored span. *)
Definition logs_attached (db : DB) : Prop :=
  forall l, In l (logs db) -> In (lg_spanId l) (map sp_id (spans db)).

(* ======================================================================== *)
(** * Proofs *)

(** ** Ids *)

Lemma nilempty_digits u :
  forallb is_digit (list_ascii_of_string (NilEmpty.string_of_uint u)) = true.
Proof. induction u; cbn; try exact IHu; reflexivity. Qed.

(** Every id the platform generates is an id of its table. *)
Lemma valid_fresh_id tb db : valid_id tb (fresh_id tb db) = true.
Proof.
  unfold fresh_id, valid_id.
  replace (Ascii.eqb (table_letter tb) (table_letter tb)) with true by (destruct tb; reflexivity).
  cbn [andb]. unfold NilZero.string_of_uint.
  destruct (Nat.to_uint (next_id db)); cbn; try rewrite nilempty_digits; reflexivity.
Qed.

Lemma valid_id_nonempty tb id : valid_id tb id = true -> id <> "".
Proof. destruct id; [discriminate | intros _; discriminate]. Qed.

Lemma verifyTrace_true db id :
  verifyTrace db id = inr true <-> valid_id Traces id = true /\ get_trace db id <> None.
Proof.
  unfold verifyTrace, db_get_trace.
  destruct (valid_id Traces id), (get_trace db id); cbn; split; intros H;
    repeat match goal with H : _ /\ _ |- _ => destruct H end;
    try split; congruence.
Qed.

Lemma verifyTrace_false db id :
  verifyTrace db id = inr false <-> valid_id Traces id = true /\ get_trace db id = None.
Proof.
  unfold verifyTrace, db_get_trace.
  destruct (valid_id Traces id), (get_trace db id); cbn; split; intros H;
    repeat match goal with H : _ /\ _ |- _ => destruct H end;
    try split; congruence.
Qed.

Lemma verifySpan_true db id :
  verifySpan db id = inr true <-> valid_id Spans id = true /\ get_span db id <> None.
Proof.
  unfold verifySpan, db_get_span.
  destruct (valid_id Spans id), (get_span db id); cbn; split; intros H;
    repeat match goal with H : _ /\ _ |- _ => destruct H end;
    try split; congruence.
Qed.

Lemma verifySpan_false db id :
  verifySpan db id = inr false <-> valid_id Spans id = true /\ get_span db id = None.
Proof.
  unfold verifySpan, db_get_span.
  destruct (valid_id Spans id), (get_span db id); cbn; split; intros H;
    repeat match goal with H : _ /\ _ |- _ => destruct H end;
    try split; congruence.
Qed.

Lemma createSpan_inv db traceId sa db1 id :
  createSpan db traceId sa = inr (db1, id) ->
  valid_id Traces traceId = true /\ id = fresh_id Spans db /\
  db1 = mkDB (traces db)
          (spans db ++ [mkSpan (fresh_id Spans db) (now db) traceId
                          (if truthy_str (sa_parentSpanId sa) then sa_parentSpanId sa
                           else None)
                          (sa_spanName sa) (sa_source sa) (sa_startTime sa) None None
                          (sa_status sa) (sa_functionName sa) (sa_args sa) VUndefined None])
          (logs db) (scheduled db) (now db) (S (next_id db)).
Proof.
  unfold createSpan. cbv zeta.
  destruct (valid_id Traces traceId) eqn:V; [|discriminate]. cbn [andb].
  match goal with |- context [if (match ?o with Some p => _ | None => _ end) then _ else _] =>
    destruct (match o with Some p => valid_id Spans p | None => true end) end;
    [|discriminate].
  intros H. injection H as <- <-. auto.
Qed.

Lemma createSpan_valid db traceId sa :
  valid_id Traces traceId = true ->
  (match (if truthy_str (sa_parentSpanId sa) then sa_parentSpanId sa else None) with
   | Some p => valid_id Spans p | None => true end) = true ->
  createSpan db traceId sa =
    inr (mkDB (traces db)
           (spans db ++ [mkSpan (fresh_id Spans db) (now db) traceId
                           (if truthy_str (sa_parentSpanId sa) then sa_parentSpanId sa
                            else None)
                           (sa_spanName sa) (sa_source sa) (sa_startTime sa) None None
                           (sa_status sa) (sa_functionName sa) (sa_args sa) VUndefined None])
           (logs db) (scheduled db) (now db) (S (next_id db)),
         fresh_id Spans db).
Proof. intros Ht Hp. unfold createSpan. cbv zeta. rewrite Ht, Hp. reflexivity. Qed.

(** ** Cleanup *)

Lemma filter_filter_andb {A} (f g : A -> bool) l :
  filter f (filter g l) = filter (fun x => g x && f x) l.
Proof.
  induction l as [|x l IH]; simpl; [reflexivity|].
  destruct (g x); simpl; [destruct (f x); simpl; now rewrite IH | exact IH].
Qed.

Lemma get_trace_some db id t :
  get_trace db id = Some t -> In t (traces db) /\ tr_id t = id.
Proof.
  unfold get_trace. intros H. split.
  - exact (proj1 (find_some _ _ H)).
  - apply String.eqb_eq, (proj2 (find_some _ _ H)).
Qed.

Lemma fold_delete_log_logs ids db :
  logs (fold_left delete_log ids db) =
  filter (fun l => negb (existsb (String.eqb (lg_id l)) ids)) (logs db).
Proof.
  revert db. induction ids as [|i ids IH]; intros db; simpl.
  - symmetry. apply forallb_filter_id, forallb_forall. reflexivity.
  - rewrite IH. simpl. rewrite filter_filter_andb.
    apply filter_ext. intros l. destruct (String.eqb (lg_id l) i); reflexivity.
Qed.

Lemma fold_delete_log_spans ids db :
  spans (fold_left delete_log ids db) = spans db.
Proof. revert db. induction ids; intros db; simpl; [reflexivity | now rewrite IHids]. Qed.

Lemma fold_delete_log_traces ids db :
  traces (fold_left delete_log ids db) = traces db.
Proof. revert db. induction ids; intros db; simpl; [reflexivity | now rewrite IHids]. Qed.

Lemma fold_delete_span_spans ids db :
  spans (fold_left delete_span ids db) =
  filter (fun s => negb (existsb (String.eqb (sp_id s)) ids)) (spans db).
Proof.
  revert db. induction ids as [|i ids IH]; intros db; simpl.
  - symmetry. apply forallb_filter_id, forallb_forall. reflexivity.
  - rewrite IH. simpl. rewrite filter_filter_andb.
    apply filter_ext. intros s. destruct (String.eqb (sp_id s) i); reflexivity.
Qed.

Lemma fold_delete_span_logs ids db :
  logs (fold_left delete_span ids db) = logs db.
Proof. revert db. induction ids; intros db; simpl; [reflexivity | now rewrite IHids]. Qed.

Lemma fold_delete_span_traces ids db :
  traces (fold_left delete_span ids db) = traces db.
Proof. revert db. induction ids; intros db; simpl; [reflexivity | now rewrite IHids]. Qed.

Lemma get_trace_delete_trace db id : get_trace (delete_trace db id) id = None.
Proof.
  unfold get_trace, delete_trace, set_traces; simpl.
  induction (traces db) as [|t ts IH]; simpl; [reflexivity|].
  destruct (String.eqb (tr_id t) id) eqn:E; simpl; [exact IH|].
  rewrite E. exact IH.
Qed.

Lemma existsb_eqb_in (x : string) l : existsb (String.eqb x) l = true <-> In x l.
Proof.
  rewrite existsb_exists. split.
  - intros [y [Hy E]]. apply String.eqb_eq in E. now subst.
  - intros H. exists x. split; [exact H | apply String.eqb_refl].
Qed.

Lemma deleteTrace_deletes db traceId :
  trace_fully_deleted db (deleteTrace db traceId) traceId.
Proof.
  unfold trace_fully_deleted, deleteTrace. split; [|split].
  - apply get_trace_delete_trace.
  - intros s Hs. simpl in Hs.
    rewrite fold_delete_span_spans, fold_delete_log_spans in Hs.
    apply filter_In in Hs as [Hs Hn]. intros E.
    apply negb_true_iff in Hn. rewrite <- not_true_iff_false in Hn.
    apply Hn, existsb_eqb_in, in_map, filter_In.
    split; [exact Hs | now apply String.eqb_eq].
  - intros l s Hl Hs E E'. simpl in Hl.
    rewrite fold_delete_span_logs, fold_delete_log_logs in Hl.
    apply filter_In in Hl as [Hl Hn].
    apply negb_true_iff in Hn. rewrite <- not_true_iff_false in Hn.
    apply Hn, existsb_eqb_in, in_map, in_concat.
    exists (logs_by_spanId db (sp_id s)). split.
    + apply (in_map (fun s0 => logs_by_spanId db (sp_id s0))), filter_In.
      split; [exact Hs | now apply String.eqb_eq].
    + apply filter_In. split; [exact Hl | now apply String.eqb_eq].
Qed.

(** C1: the cleanup policy.  For a stored trace: [preserve = true] leaves
    the database unchanged; [preserve = false] runs [deleteTrace], which
    removes the trace, every span with its id and every log of those spans;
    with [preserve] undefined the same deletion happens iff the draw is
    [>= sampleRate], so the trace survives exactly when the draw is below
    its current [sampleRate] (for a uniform draw on [0,1) and a rate in
    [0,1], with probability [sampleRate]). *)
Theorem cleanupTrace_policy db traceId random trace :
  get_trace db traceId = Some trace ->
  (tr_preserve trace = Some true -> cleanupTrace db traceId random = db) /\
  (tr_preserve trace = Some false ->
     cleanupTrace db traceId random = deleteTrace db traceId /\
     trace_fully_deleted db (cleanupTrace db traceId random) traceId) /\
  (tr_preserve trace = None ->
     cleanupTrace db traceId random =
       (if Qle_bool (tr_sampleRate trace) random
        then deleteTrace db traceId else db) /\
     (random >= tr_sampleRate trace ->
        trace_fully_deleted db (cleanupTrace db traceId random) traceId) /\
     (random < tr_sampleRate trace -> cleanupTrace db traceId random = db) /\
     (trace_kept (cleanupTrace db traceId random) traceId = true <->
        random < tr_sampleRate trace)).
Proof.
  intros H. pose proof (get_trace_some _ _ _ H) as [_ Hid].
  unfold cleanupTrace. rewrite H, Hid.
  split; [|split].
  - intros ->. reflexivity.
  - intros ->. split; [reflexivity | apply deleteTrace_deletes].
  - intros ->. split; [reflexivity|]. split; [|split].
    + intros Hr. apply Qle_bool_iff in Hr. rewrite Hr. apply deleteTrace_deletes.
    + intros Hr. destruct (Qle_bool (tr_sampleRate trace) random) eqn:E;
        [apply Qle_bool_iff in E; apply Qlt_not_le in Hr; contradiction|reflexivity].
    + destruct (Qle_bool (tr_sampleRate trace) random) eqn:E.
      * apply Qle_bool_iff in E. unfold trace_kept.
        rewrite (proj1 (deleteTrace_deletes db traceId)).
        split; [discriminate|]. intros Hr. apply Qlt_not_le in Hr. contradiction.
      * unfold trace_kept. rewrite H. split; [intros _|reflexivity].
        apply Qnot_le_lt. intros Hle. apply Qle_bool_iff in Hle. congruence.
Qed.

(** ** Patching a trace *)

Lemma find_map_patch (id : Id) (f : Trace -> Trace) l :
  (forall t, tr_id (f t) = tr_id t) ->
  find (fun t => String.eqb (tr_id t) id)
       (map (fun t => if String.eqb (tr_id t) id then f t else t) l) =
  option_map f (find (fun t => String.eqb (tr_id t) id) l).
Proof.
  intros Hf. induction l as [|t l IH]; simpl; [reflexivity|].
  destruct (String.eqb (tr_id t) id) eqn:E; simpl.
  - rewrite Hf, E. reflexivity.
  - rewrite E. exact IH.
Qed.

Lemma patch_trace_get db id f trace :
  (forall t, tr_id (f t) = tr_id t) ->
  get_trace db id = Some trace ->
  exists db', patch_trace db id f = inr db' /\ get_trace db' id = Some (f trace).
Proof.
  intros Hf H. unfold patch_trace. rewrite H. eexists. split; [reflexivity|].
  unfold get_trace, set_traces; simpl. rewrite find_map_patch by exact Hf.
  unfold get_trace in H. rewrite H. reflexivity.
Qed.

(** C9 (the code): [sample(rateOverride?)] on a stored trace clears
    [preserve] and overwrites [sampleRate] only with a non-zero override;
    [sample(0)] leaves the old rate in place, because [updateTracePreserve]
    tests the override with [if (sampleRate)]. *)
Theorem sample_resets_preserve_but_ignores_zero api db trace rate :
  get_trace db (api_traceId api) = Some trace ->
  exists trace',
    get_trace (api_sample api rate db) (api_traceId api) = Some trace' /\
    tr_preserve trace' = None /\
    tr_sampleRate trace' =
      match rate with
      | Some r => if Qeq_bool r 0 then tr_sampleRate trace else r
      | None => tr_sampleRate trace
      end.
Proof.
  intros H. unfold api_sample, exec, apply_mutation, updateTracePreserve.
  match goal with |- context [patch_trace ?d ?i ?f] =>
    destruct (patch_trace_get d i f trace) as [db' [E G]];
    [intros; reflexivity | exact H | ] end.
  rewrite E. eexists. split; [exact G|]. simpl. split; [reflexivity|].
  destruct rate as [r|]; [|reflexivity]. unfold truthy_num.
  destruct (Qeq_bool r 0); reflexivity.
Qed.

(** ** Resolving the invocation context *)

Lemma truthy_nonempty (x : Id) : x <> "" -> truthy_str (Some x) = true.
Proof.
  intros H. unfold truthy_str. apply negb_true_iff, String.eqb_neq, H.
Qed.

(** C5 (amended): with an inbound token whose [traceId] is an id of the
    [traces] table and whose [spanId] is empty or an id of the [spans]
    table, no trace is created and exactly one span is appended, under the
    token's trace, with the token's [spanId] as parent when that id is
    non-empty (an empty one is stored as no parent); the outbound token
    copies the inbound [sampleRate], [retentionMinutes] and [preserveErrors]
    with the new span id, and the invocation is not root.  With a non-empty
    [traceId] that is not a trace id, or a non-empty [spanId] that is not a
    span id, [createSpan]'s insert fails the schema and the setup throws. *)
Theorem setupTraceContext_child db ec startTime functionName sampleRate
    retentionMinutes preserveErrors sfn sargs :
  (valid_id Traces (tc_traceId ec) = true ->
   tc_spanId ec = "" \/ valid_id Spans (tc_spanId ec) = true ->
   exists db1 out sp,
     setupTraceContext db (Some ec) startTime functionName sampleRate
       retentionMinutes preserveErrors sfn sargs = inr (db1, out) /\
     traces db1 = traces db /\
     spans db1 = spans db ++ [sp] /\
     so_spanId out = sp_id sp /\
     so_traceId out = tc_traceId ec /\
     so_isRoot out = false /\
     so_traceContext out =
       mkTraceContext (tc_traceId ec) (sp_id sp) (tc_sampleRate ec)
                      (tc_retentionMinutes ec) (tc_preserveErrors ec) /\
     sp_traceId sp = tc_traceId ec /\
     sp_parentSpanId sp =
       (if String.eqb (tc_spanId ec) "" then None else Some (tc_spanId ec))) /\
  (tc_traceId ec <> "" ->
   valid_id Traces (tc_traceId ec) = false \/
   (tc_spanId ec <> "" /\ valid_id Spans (tc_spanId ec) = false) ->
   setupTraceContext db (Some ec) startTime functionName sampleRate
     retentionMinutes preserveErrors sfn sargs = inl (schema_error "spans")).
Proof.
  split.
  - intros Ht Hs. unfold setupTraceContext. cbv iota beta.
    rewrite (truthy_nonempty _ (valid_id_nonempty _ _ Ht)).
    rewrite createSpan_valid; cbn [sa_parentSpanId].
    + do 3 eexists. split; [reflexivity|].
      do 7 (split; [reflexivity|]). cbn [sp_parentSpanId].
      unfold truthy_str. destruct (String.eqb (tc_spanId ec) ""); reflexivity.
    + exact Ht.
    + destruct Hs as [E|Hs].
      * rewrite E. reflexivity.
      * rewrite (truthy_nonempty _ (valid_id_nonempty _ _ Hs)). exact Hs.
  - intros Hne Hbad. unfold setupTraceContext. cbv iota beta.
    rewrite (truthy_nonempty _ Hne). unfold createSpan. cbv zeta. cbn [sa_parentSpanId].
    destruct Hbad as [Hb|[Hsne Hb]].
    + rewrite Hb. reflexivity.
    + rewrite (truthy_nonempty _ Hsne), Hb, andb_false_r. reflexivity.
Qed.

(** C5 (counterexample): a token whose [spanId] is the empty string yields a
    span with no parent, not one whose [parentSpanId] is the token's id; and
    a token whose [traceId] is not a trace id creates no span at all. *)
Lemma setupTraceContext_empty_spanId_no_parent :
  (exists db1 out sp,
     setupTraceContext example_db (Some (mkTraceContext "t1" "" None None None)) 10
       "child" (1#10) 120 true (Some "child") VUndefined = inr (db1, out) /\
     spans db1 = spans example_db ++ [sp] /\
     sp_parentSpanId sp <> Some "") /\
  setupTraceContext example_db (Some (mkTraceContext "bogus" "s1" None None None)) 10
    "child" (1#10) 120 true (Some "child") VUndefined = inl (schema_error "spans").
Proof.
  split; [|reflexivity].
  do 3 eexists. split; [reflexivity|]. split; [reflexivity|]. cbn. discriminate.
Qed.

(** C7 (the code): a root invocation calls [createTrace] with no [userId],
    which the mutation's validator requires, so trace creation is rejected
    and the registered function fails; no trace records a principal. *)
Theorem root_invocation_createTrace_rejected db ec fn tConfig tracer handler
    loggedArgs runAfter_result :
  has_traceId ec = false ->
  tracedInvoke db ec fn tConfig tracer handler loggedArgs runAfter_result =
    inl (ErrorObj "ArgumentValidationError: Object is missing the required field `userId`").
Proof.
  intros H. unfold tracedInvoke, setupTraceContext.
  destruct ec as [ec|]; [unfold has_traceId in H; cbv iota beta; rewrite H|];
    reflexivity.
Qed.

(** ** Monad lemmas *)

Lemma in_bind_l {A B} ev (m : M A) (f : A -> M B) :
  In ev (fst m) -> In ev (fst (bind m f)).
Proof.
  intros H. unfold bind. destruct (snd m); simpl; [exact H | apply in_or_app; now left].
Qed.

Lemma in_bind_r {A B} ev (m : M A) (f : A -> M B) a :
  snd m = inr a -> In ev (fst (f a)) -> In ev (fst (bind m f)).
Proof. intros E H. unfold bind. rewrite E. simpl. apply in_or_app. now right. Qed.

Lemma in_try_catch_l {A} ev (m : M A) h :
  In ev (fst m) -> In ev (fst (try_catch m h)).
Proof.
  intros H. unfold try_catch. destruct (snd m); simpl; [apply in_or_app; now left | exact H].
Qed.

Lemma in_try_finally_l {A} ev (m : M A) f :
  In ev (fst m) -> In ev (fst (try_finally m f)).
Proof. intros H. unfold try_finally. simpl. apply in_or_app. now left. Qed.

Lemma find_app_last {A} (p : A -> bool) l x :
  p x = true -> exists y, find p (l ++ [x]) = Some y.
Proof.
  intros Hx. induction l as [|y l IH]; simpl.
  - rewrite Hx. eauto.
  - destruct (p y); eauto.
Qed.

Lemma fresh_id_nonempty tb db : fresh_id tb db <> "".
Proof. unfold fresh_id. discriminate. Qed.

Lemma verifyTrace_traces db db' id :
  traces db' = traces db -> verifyTrace db' id = verifyTrace db id.
Proof. intros E. unfold verifyTrace, db_get_trace, get_trace. rewrite E. reflexivity. Qed.

(** The span [createSpan] has just inserted is found by [verifySpan]. *)
Lemma verifySpan_created db traceId sa db1 id :
  createSpan db traceId sa = inr (db1, id) -> verifySpan db1 id = inr true.
Proof.
  intros C. destruct (createSpan_inv _ _ _ _ _ C) as (_ & -> & ->).
  apply verifySpan_true. split; [apply valid_fresh_id|].
  unfold get_span. cbn [spans].
  match goal with |- find ?p (?l ++ [?x]) <> None =>
    destruct (find_app_last p l x) as [y Hy];
    [simpl; apply String.eqb_refl | rewrite Hy; discriminate] end.
Qed.

(** C6 (the code): a token naming a stored trace and a well-formed span id
    of no stored span (one deleted, say) passes the checks (they test the
    span just created for this invocation, not the token's span) and the
    handler runs.  The schema check of [createSpan] only rejects a
    [parentSpanId] that is not an id of the [spans] table. *)
Theorem forged_parent_spanId_reaches_handler db ec fn tConfig tracer handler
    loggedArgs runAfter_result :
  verifyTrace db (tc_traceId ec) = inr true ->
  verifySpan db (tc_spanId ec) = inr false ->
  opt_onStart tConfig = None ->
  exists db1 m,
    tracedInvoke db (Some ec) fn tConfig tracer handler loggedArgs runAfter_result =
      inr (db1, m) /\
    In EvHandler (fst m).
Proof.
  intros Hv Hs Ho.
  destruct (proj1 (verifyTrace_true _ _) Hv) as [Vt _].
  destruct (proj1 (verifySpan_false _ _) Hs) as [Vs _].
  unfold tracedInvoke, setupTraceContext. cbv iota beta.
  rewrite (truthy_nonempty _ (valid_id_nonempty _ _ Vt)).
  destruct (createSpan db (tc_traceId ec) _) as [e|[db1 spanId]] eqn:C.
  { rewrite createSpan_valid in C; [discriminate C | exact Vt |].
    cbn [sa_parentSpanId]. rewrite (truthy_nonempty _ (valid_id_nonempty _ _ Vs)).
    exact Vs. }
  do 2 eexists. split; [reflexivity|].
  unfold executeTracedHandler, executeTracedHandler_try.
  cbn [so_traceId so_spanId so_isRoot].
  destruct (createSpan_inv _ _ _ _ _ C) as (_ & Eid & Edb).
  apply in_try_finally_l, in_try_catch_l.
  eapply in_bind_r.
  { rewrite (truthy_nonempty _ (valid_id_nonempty _ _ Vt)).
    rewrite (verifyTrace_traces db db1) by (rewrite Edb; reflexivity). rewrite Hv.
    reflexivity. }
  eapply in_bind_r.
  { rewrite Eid, (truthy_nonempty _ (fresh_id_nonempty _ db)), <- Eid.
    rewrite (verifySpan_created _ _ _ _ _ C). reflexivity. }
  rewrite Ho. eapply in_bind_r; [reflexivity|].
  apply in_bind_l, in_bind_l. simpl. now left.
Qed.

(** ** Scheduling of the cleanup job *)

Section EventInvariant.
Variable P : Event -> Prop.

Lemma Forall_bind {A B} (m : M A) (f : A -> M B) :
  Forall P (fst m) -> (forall a, Forall P (fst (f a))) -> Forall P (fst (bind m f)).
Proof.
  intros Hm Hf. unfold bind. destruct (snd m) as [e|a]; cbn [fst]; [exact Hm|].
  apply Forall_app; auto.
Qed.

Lemma Forall_try_catch {A} (m : M A) (h : Exn -> M A) :
  Forall P (fst m) -> (forall e, Forall P (fst (h e))) -> Forall P (fst (try_catch m h)).
Proof.
  intros Hm Hh. unfold try_catch. destruct (snd m) as [e|a]; cbn [fst]; [|exact Hm].
  apply Forall_app; auto.
Qed.

Lemma Forall_ret {A} (a : A) : Forall P (fst (ret a)).
Proof. constructor. Qed.

Lemma Forall_throw {A} (e : Exn) : Forall P (fst (throw (A:=A) e)).
Proof. constructor. Qed.

Lemma Forall_lift {A} (o : Exn + A) : Forall P (fst (lift o)).
Proof. constructor. Qed.

Lemma Forall_emit ev : P ev -> Forall P (fst (emit ev)).
Proof. intros H. constructor; [exact H | constructor]. Qed.

End EventInvariant.

Ltac ev_forall :=
  repeat match goal with
  | |- Forall _ (fst (bind _ _)) => apply Forall_bind; [|intros ?]
  | |- Forall _ (fst (try_catch _ _)) => apply Forall_try_catch; [|intros ?]
  | |- Forall _ (fst (ret _)) => apply Forall_ret
  | |- Forall _ (fst (throw _)) => apply Forall_throw
  | |- Forall _ (fst (lift _)) => apply Forall_lift
  | |- Forall _ (fst (emit _)) => apply Forall_emit; reflexivity
  | |- Forall _ (fst (run_hook _ ?h)) => unfold run_hook; destruct h
  | |- Forall _ (fst (if ?b then _ else _)) => destruct b
  | |- Forall _ (fst (let _ := _ in _)) => cbv zeta
  | |- Forall _ (fst (match ?o with inl _ => _ | inr _ => _ end)) => destruct o
  end.

Lemma in_try_finally {A} ev (m : M A) f :
  In ev (fst (try_finally m f)) <-> In ev (fst m) \/ In ev (fst f).
Proof. unfold try_finally; cbn [fst]. apply in_app_iff. Qed.

Lemma truthy_num_iff q : truthy_num q = true <-> ~ q == 0.
Proof.
  unfold truthy_num. rewrite negb_true_iff. split.
  - intros H E. apply Qeq_bool_iff in E. congruence.
  - intros H. destruct (Qeq_bool q 0) eqn:E; [|reflexivity].
    apply Qeq_bool_iff in E. contradiction.
Qed.

Lemma Qlt_bool_iff a b : Qlt_bool a b = true <-> a < b.
Proof.
  unfold Qlt_bool. rewrite negb_true_iff. split.
  - intros H. apply Qnot_le_lt. intros L. apply Qle_bool_iff in L. congruence.
  - intros H. destruct (Qle_bool b a) eqn:E; [|reflexivity].
    apply Qle_bool_iff in E. exfalso. apply (Qlt_not_le _ _ H E).
Qed.

(** Claim C4.  Whatever the outcome of the traced handler and of the hooks
    (and provided the [runAfter] call itself succeeds), the invocation
    schedules a [cleanupTrace] job exactly when the effective sample rate
    [config.sampleRate ?? defaultConfig.sampleRate] is non-zero and below 1;
    the job is keyed by the invocation's trace id and delayed by the
    effective retention in milliseconds.  In particular a sample rate of 0
    schedules no cleanup at all, because the code tests [!sampleRate]. *)
Theorem cleanup_scheduled_iff_nonzero_rate_below_one db traceId spanId startTime
    config defaultConfig handler isRoot :
  let sampleRate := coalesce (opt_sampleRate config) (def_sampleRate defaultConfig) in
  let retMins :=
    coalesce (opt_retentionMinutes config) (def_retentionMinutes defaultConfig) in
  let evs := fst (executeTracedHandler db traceId spanId startTime config defaultConfig
                    handler isRoot (inr tt)) in
  (forall delay tid, In (EvAwait (MRunAfter delay tid)) evs ->
     tid = traceId /\ delay = retMins * 60000 /\ ~ sampleRate == 0 /\ sampleRate < 1) /\
  ((exists delay tid, In (EvAwait (MRunAfter delay tid)) evs) <->
     ~ sampleRate == 0 /\ sampleRate < 1) /\
  (~ sampleRate == 0 -> sampleRate < 1 -> In (EvAwait (MRunAfter (retMins * 60000) traceId)) evs).
Proof.
  intros sampleRate retMins evs.
  assert (Htry : forall delay tid, ~ In (EvAwait (MRunAfter delay tid))
     (fst (executeTracedHandler_try db traceId spanId startTime config defaultConfig
             handler isRoot))).
  { intros delay tid Hin.
    assert (HF : Forall (fun ev => is_runAfter ev = false)
      (fst (executeTracedHandler_try db traceId spanId startTime config defaultConfig
              handler isRoot))).
    { unfold executeTracedHandler_try. ev_forall. }
    rewrite Forall_forall in HF. specialize (HF _ Hin). discriminate HF. }
  unfold evs, executeTracedHandler.
  setoid_rewrite in_try_finally.
  assert (Hfin : forall delay tid,
    In (EvAwait (MRunAfter delay tid))
      (fst (executeTracedHandler_finally traceId config defaultConfig (inr tt))) <->
    truthy_num sampleRate = true /\ Qlt_bool sampleRate 1 = true /\
    delay = retMins * 60000 /\ tid = traceId).
  { intros delay tid. unfold executeTracedHandler_finally. fold sampleRate retMins.
    destruct (truthy_num retMins), (truthy_num sampleRate), (Qlt_bool sampleRate 1);
      cbn; split; intuition congruence. }
  setoid_rewrite truthy_num_iff in Hfin. setoid_rewrite Qlt_bool_iff in Hfin.
  split; [|split].
  - intros delay tid [H|H]; [exfalso; exact (Htry _ _ H)|].
    apply Hfin in H. intuition.
  - split.
    + intros (delay & tid & [H|H]); [exfalso; exact (Htry _ _ H)|].
      apply Hfin in H. intuition.
    + intros [H1 H2]. exists (retMins * 60000), traceId. right. apply Hfin. auto.
  - intros H1 H2. right. apply Hfin. auto.
Qed.

(** ** The structured result of a traced invocation *)

Lemma executeTracedHandler_finally_ok traceId config defaultConfig :
  snd (executeTracedHandler_finally traceId config defaultConfig (inr tt)) = inr tt.
Proof.
  unfold executeTracedHandler_finally.
  destruct (truthy_num _), (truthy_num _), (Qlt_bool _ _); reflexivity.
Qed.

Lemma snd_executeTracedHandler db traceId spanId startTime config defaultConfig
    handler isRoot :
  snd (executeTracedHandler db traceId spanId startTime config defaultConfig handler
         isRoot (inr tt)) =
  snd (executeTracedHandler_try db traceId spanId startTime config defaultConfig handler
         isRoot).
Proof.
  unfold executeTracedHandler, try_finally. cbn [snd].
  rewrite executeTracedHandler_finally_ok. reflexivity.
Qed.

Lemma snd_bind_inr {A B} (m : M A) (f : A -> M B) b :
  snd (bind m f) = inr b -> exists a, snd m = inr a /\ snd (f a) = inr b.
Proof.
  unfold bind. destruct (snd m) as [e|a]; cbn [snd]; [discriminate|eauto].
Qed.

Lemma snd_bind_inl {A B} (m : M A) (f : A -> M B) e :
  snd m = inl e -> snd (bind m f) = inl e.
Proof. unfold bind. intros ->. reflexivity. Qed.

Lemma snd_bind_ret {A B} (m : M A) (f : A -> M B) a :
  snd m = inr a -> snd (bind m f) = snd (f a).
Proof. unfold bind. intros ->. reflexivity. Qed.

Ltac hook_cases h := destruct h as [[?|[]]|]; cbn [hook_ok] in *; try discriminate.

Ltac invert_binds H :=
  repeat (cbv zeta beta in H; apply snd_bind_inr in H;
          let a := fresh "a" in let Ha := fresh "Ha" in destruct H as (a & Ha & H)).

(** Every exception a computation throws satisfies [P]. *)
Section ThrowInvariant.
Variable P : Exn -> Prop.

Lemma thr_bind {A B} (m : M A) (f : A -> M B) :
  (forall e, snd m = inl e -> P e) ->
  (forall a, snd m = inr a -> forall e, snd (f a) = inl e -> P e) ->
  forall e, snd (bind m f) = inl e -> P e.
Proof.
  intros Hm Hf e. unfold bind. destruct (snd m) as [e0|a] eqn:E; cbn [snd].
  - intros [= <-]. apply Hm. reflexivity.
  - apply Hf. reflexivity.
Qed.

Lemma thr_ret {A} (a : A) : forall e, snd (ret a) = inl e -> P e.
Proof. discriminate. Qed.

Lemma thr_emit ev : forall e, snd (emit ev) = inl e -> P e.
Proof. discriminate. Qed.

Lemma thr_throw {A} e0 : P e0 -> forall e, snd (throw (A:=A) e0) = inl e -> P e.
Proof. intros H e [= <-]. exact H. Qed.

Lemma thr_lift {A} (o : Exn + A) :
  (forall e, o = inl e -> P e) -> forall e, snd (lift o) = inl e -> P e.
Proof. auto. Qed.
End ThrowInvariant.

Ltac thr_inv :=
  repeat match goal with
  | |- forall e, snd (bind _ _) = inl e -> _ => apply thr_bind; [|intros ?a ?Ha]
  | |- forall e, snd (ret _) = inl e -> _ => apply thr_ret
  | |- forall e, snd (emit _) = inl e -> _ => apply thr_emit
  | |- forall e, snd (throw _) = inl e -> _ => apply thr_throw; reflexivity
  | |- forall e, snd (lift _) = inl e -> _ => apply thr_lift
  | |- forall e, snd (run_hook _ ?h) = inl e -> _ => unfold run_hook; destruct h eqn:?
  | |- forall e, snd (if ?b then _ else _) = inl e -> _ => destruct b
  | |- forall e, snd (let _ := _ in _) = inl e -> _ => cbv zeta
  end.

Lemma verifyTrace_readable db id e :
  verifyTrace db id = inl e -> message_readable e = true.
Proof.
  unfold verifyTrace, db_get_trace. destruct (valid_id Traces id); [discriminate|].
  intros [= <-]. reflexivity.
Qed.

Lemma verifySpan_readable db id e :
  verifySpan db id = inl e -> message_readable e = true.
Proof.
  unfold verifySpan, db_get_span. destruct (valid_id Spans id); [discriminate|].
  intros [= <-]. reflexivity.
Qed.

Ltac thr_close :=
  intros ?e ?Ho;
  first [ exact (verifyTrace_readable _ _ _ Ho) | exact (verifySpan_readable _ _ _ Ho)
        | injection Ho as <-; assumption
        | subst; solve [eauto]
        | exfalso; match goal with H : snd _ = inr _ |- _ => cbn in H; discriminate H end ].



(** ** Un-awaited [preserve] on the failure path *)

Lemma run_main_steps db evs p x :
  steps (mkRun db evs p x) (run_main db evs p x).
Proof.
  revert db p x. induction evs as [|ev evs IH]; intros db p x; simpl.
  - apply steps_refl.
  - destruct ev; (eapply steps_cons; [|apply IH]);
      first [apply step_await | apply step_spawn | apply step_other; discriminate].
Qed.

Lemma run_main_main db evs p x : main (run_main db evs p x) = [].
Proof.
  revert db p x. induction evs as [|[] evs IH]; intros db p x; simpl; auto.
Qed.

Lemma run_main_pending m db evs p x :
  In m (pending (run_main db evs p x)) <-> In m p \/ In (EvSpawn m) evs.
Proof.
  revert db p x. induction evs as [|ev evs IH]; intros db p x; simpl.
  - tauto.
  - destruct ev; rewrite IH; try rewrite in_app_iff; simpl;
      intuition congruence.
Qed.

Lemma run_main_executed m db evs p x :
  In m (executed (run_main db evs p x)) <-> In m x \/ In (EvAwait m) evs.
Proof.
  revert db p x. induction evs as [|ev evs IH]; intros db p x; simpl.
  - tauto.
  - destruct ev; rewrite IH; try rewrite in_app_iff; simpl;
      intuition congruence.
Qed.

Lemma find_map_same_key {A} (p : A -> bool) (g : A -> A) l :
  (forall a, p (g a) = p a) -> find p (map g l) = option_map g (find p l).
Proof.
  intros Hg. induction l as [|a l IH]; simpl; [reflexivity|].
  rewrite Hg. destruct (p a); [reflexivity | exact IH].
Qed.

Lemma patch_trace_policy db id f db' id' :
  (forall t, tr_id (f t) = tr_id t) ->
  (forall t, tr_preserve (f t) = tr_preserve t) ->
  (forall t, tr_sampleRate (f t) = tr_sampleRate t) ->
  patch_trace db id f = inr db' -> trace_policy db' id' = trace_policy db id'.
Proof.
  intros Hid Hp Hr. unfold patch_trace. destruct (get_trace db id) as [t0|]; [|discriminate].
  intros E. injection E as <-. unfold trace_policy, get_trace, set_traces. cbn [traces].
  rewrite find_map_same_key.
  - destruct (find _ (traces db)) as [t|]; cbn; [|reflexivity].
    destruct (String.eqb (tr_id t) id); rewrite ?Hp, ?Hr; reflexivity.
  - intros t. destruct (String.eqb (tr_id t) id) eqn:E; [|reflexivity].
    rewrite Hid. reflexivity.
Qed.

Lemma exec_keeps_policy db m id :
  keeps_policy (EvAwait m) = true -> trace_policy (exec db m) id = trace_policy db id.
Proof.
  intros Hk. unfold exec.
  destruct (apply_mutation db m) as [e|db'] eqn:E; [reflexivity|].
  destruct m; cbn in Hk, E; try discriminate.
  - unfold completeSpan, patch_span in E. destruct (get_span db spanId); [|discriminate].
    injection E as <-. reflexivity.
  - unfold updateTraceStatus in E. eapply patch_trace_policy; [| | |exact E]; reflexivity.
  - unfold addLog, db_get_span in E. destruct (valid_id Spans spanId); [|discriminate].
    destruct (get_span db spanId); [|discriminate].
    injection E as <-. reflexivity.
  - unfold db_get_span in E. destruct (valid_id Spans spanId); [|discriminate].
    destruct (get_span db spanId); [|discriminate]. injection E as <-. reflexivity.
  - injection E as <-. reflexivity.
Qed.

Lemma run_main_policy db evs p x id :
  Forall (fun ev => keeps_policy ev = true) evs ->
  trace_policy (rdb (run_main db evs p x)) id = trace_policy db id.
Proof.
  revert db p x. induction evs as [|ev evs IH]; intros db p x Hf; simpl; [reflexivity|].
  inversion Hf as [|? ? Hev Hrest]; subst.
  destruct ev; rewrite IH by exact Hrest; try reflexivity.
  apply exec_keeps_policy. exact Hev.
Qed.

Lemma executeTracedHandler_keeps_policy db traceId spanId startTime config defaultConfig
    handler isRoot runAfter_result :
  Forall (fun ev => keeps_policy ev = true)
    (fst (executeTracedHandler db traceId spanId startTime config defaultConfig handler
            isRoot runAfter_result)).
Proof.
  unfold executeTracedHandler, try_finally. cbn [fst]. apply Forall_app. split.
  - unfold executeTracedHandler_try. ev_forall.
  - unfold executeTracedHandler_finally. ev_forall.
Qed.

Lemma executeTracedHandler_try_fails db traceId spanId startTime config defaultConfig
    e (isRoot : bool) :
  message_readable e = true ->
  (forall e', opt_onStart config = Some (inl e') -> message_readable e' = true) ->
  exists m : option string,
    forall ev : Event, In ev (fst (run_hook EvOnError (opt_onError config) ;;;
                  (if coalesce (opt_preserveErrors config) (def_preserveErrors defaultConfig)
                   then emit (EvSpawn (MUpdateTracePreserve traceId (Some true) None))
                   else ret tt) ;;;
                  emit (EvAwait (MCompleteSpan spanId (now db) (now db - startTime) Error
                                   VUndefined m)) ;;;
                  (if isRoot then emit (EvAwait (MUpdateTraceStatus traceId Error))
                   else ret tt) ;;;
                  ret (mkResult false VUndefined m))) ->
     In ev (fst (executeTracedHandler_try db traceId spanId startTime config defaultConfig
                   (inl e) isRoot)).
Proof.
  intros He Hst. unfold executeTracedHandler_try, try_catch.
  match goal with |- context [match snd ?B with inl _ => _ | inr _ => _ end] =>
    assert (HB : forall e0, snd B = inl e0 -> message_readable e0 = true)
      by (thr_inv; thr_close);
    destruct (snd B) as [e0|res] eqn:E end.
  - specialize (HB e0 eq_refl). unfold message_readable in HB.
    destruct (read_message e0) as [te|m] eqn:Em; [discriminate HB|].
    exists m. intros ev Hin. apply in_or_app. right.
    destruct (opt_onError config) as [[?|?]|],
      (coalesce (opt_preserveErrors config) (def_preserveErrors defaultConfig)),
      isRoot; cbn in Hin |- *; exact Hin.
  - exfalso. invert_binds E.
    match goal with H : snd (emit EvHandler ;;; lift (inl e)) = inr _ |- _ =>
      apply snd_bind_inr in H; destruct H as (? & _ & H); discriminate H end.
Qed.

Lemma cleanupTrace_drawn_deletes db traceId random trace :
  get_trace db traceId = Some trace -> tr_preserve trace = None ->
  tr_sampleRate trace <= random ->
  trace_fully_deleted db (cleanupTrace db traceId random) traceId.
Proof.
  intros H Hp Hr. pose proof (get_trace_some _ _ _ H) as [_ Hid].
  unfold cleanupTrace. rewrite H, Hp, Hid.
  apply Qle_bool_iff in Hr. rewrite Hr. apply deleteTrace_deletes.
Qed.

(** Claim C2 (the code).  When the handler throws, [onError] (if any)
    completes and the effective [preserveErrors] is true, the catch block
    only starts the [preserve] mutation without awaiting it.  In the legal
    schedule where the invocation runs to its end first, the span is
    completed with status [error] and the cleanup job is scheduled while
    [preserve = true] is still pending and not executed; the trace's
    [preserve] and [sampleRate] are then as they were stored, so a cleanup
    run at that point deletes a trace stored with [preserve] undefined
    whenever the draw is at least its [sampleRate] (always, at rate 0).
    The thrown value and any exception of [onStart] are assumed to have a
    readable [message] (not [null] or [undefined]), so that the [catch]
    block reaches [completeSpan]. *)
Theorem preserve_not_awaited_before_cleanup db traceId spanId startTime config
    defaultConfig e isRoot :
  hook_ok (opt_onError config) = true ->
  coalesce (opt_preserveErrors config) (def_preserveErrors defaultConfig) = true ->
  message_readable e = true ->
  (forall e', opt_onStart config = Some (inl e') -> message_readable e' = true) ->
  let evs := fst (executeTracedHandler db traceId spanId startTime config defaultConfig
                    (inl e) isRoot (inr tt)) in
  let r := run_main db evs [] [] in
  steps (mkRun db evs [] []) r /\
  main r = [] /\
  In (MUpdateTracePreserve traceId (Some true) None) (pending r) /\
  ~ In (MUpdateTracePreserve traceId (Some true) None) (executed r) /\
  (exists err, In (MCompleteSpan spanId (now db) (now db - startTime) Error VUndefined err)
                  (executed r)) /\
  trace_policy (rdb r) traceId = trace_policy db traceId /\
  (forall trace random, get_trace db traceId = Some trace -> tr_preserve trace = None ->
     tr_sampleRate trace <= random ->
     trace_fully_deleted (rdb r) (cleanupTrace (rdb r) traceId random) traceId).
Proof.
  intros Herr Hpe He Hst evs r.
  pose proof (executeTracedHandler_keeps_policy db traceId spanId startTime config
                defaultConfig (inl e) isRoot (inr tt)) as Hkeep.
  fold evs in Hkeep.
  destruct (executeTracedHandler_try_fails db traceId spanId startTime config
              defaultConfig e isRoot He Hst) as (m & Hsub).
  rewrite Hpe in Hsub.
  assert (Hin : forall ev, In ev
            (fst (run_hook EvOnError (opt_onError config) ;;;
                  emit (EvSpawn (MUpdateTracePreserve traceId (Some true) None)) ;;;
                  emit (EvAwait (MCompleteSpan spanId (now db) (now db - startTime) Error
                                   VUndefined m)) ;;;
                  (if isRoot then emit (EvAwait (MUpdateTraceStatus traceId Error))
                   else ret tt) ;;;
                  ret (mkResult false VUndefined m))) -> In ev evs).
  { intros ev H. unfold evs, executeTracedHandler. apply in_try_finally. left.
    apply Hsub. exact H. }
  assert (Hpol : trace_policy (rdb (run_main db evs [] [])) traceId =
                 trace_policy db traceId)
    by (apply run_main_policy; exact Hkeep).
  unfold r.
  split; [apply run_main_steps|]. split; [apply run_main_main|].
  split; [|split; [|split; [|split]]].
  - apply run_main_pending. right. apply Hin.
    hook_cases (opt_onError config); destruct isRoot; cbn; auto.
  - rewrite run_main_executed. intros [[]|H].
    rewrite Forall_forall in Hkeep. specialize (Hkeep _ H). discriminate Hkeep.
  - exists m. apply run_main_executed. right. apply Hin.
    hook_cases (opt_onError config); destruct isRoot; cbn; auto.
  - exact Hpol.
  - intros trace random Ht Hp Hr.
    unfold trace_policy in Hpol. rewrite Ht in Hpol.
    destruct (get_trace (rdb (run_main db evs [] [])) traceId) as [trace'|] eqn:Ht';
      cbn [option_map] in Hpol; [|discriminate Hpol].
    injection Hpol as Hp' Hr'.
    apply (cleanupTrace_drawn_deletes _ _ _ trace'); [exact Ht' | congruence |].
    rewrite Hr'. exact Hr.
Qed.

(** ** Fallback after a failed child-span creation *)

Lemma run_noop_events b ev : In ev (fst (run_noop b)) -> exists w, ev = EvWork w.
Proof.
  induction b as [v|e|sev msg k IH|k IH|name body _ k IH|w k IH]; cbn [run_noop].
  - cbn. intros [].
  - cbn. intros [].
  - exact IH.
  - exact IH.
  - apply IH.
  - cbn [bind emit fst snd app]. intros [<-|H]; eauto.
Qed.

(** Claim C10.  When [createSpan] fails inside [withSpan], (1) the caller's
    block is run against [createNoOpSpanAPI()] after one console error, the
    database is left as it was by that block, and execution continues with
    its result; (2) the stand-in handle performs no mutation at all: its
    [info]/[warn]/[error]/[updateMetadata] calls are skipped, only the
    block's own work remains; (3) its [withSpan] resolves to [undefined]
    and never runs the nested block: the outcome does not depend on it. *)
Theorem failed_span_falls_back_to_noop infra api spanId name body k db :
  infra db = false ->
  (run_span infra api spanId (BWithSpan name body k) db =
     match run_noop body with
     | (evs, inl e) =>
         (db, EvConsoleError "[Tracer] Failed to create child span:" :: evs, inl e)
     | (evs, inr v) =>
         let '(db2, evs', r) := run_span infra api spanId (k v) db in
         (db2, (EvConsoleError "[Tracer] Failed to create child span:" :: evs ++ evs')%list, r)
     end) /\
  (forall ev, In ev (fst (run_noop body)) -> exists w, ev = EvWork w) /\
  (forall name' inner inner' k',
     run_noop (BWithSpan name' inner k') = run_noop (k' VUndefined) /\
     run_noop (BWithSpan name' inner k') = run_noop (BWithSpan name' inner' k')).
Proof.
  intros Hinfra. split; [|split].
  - cbn [run_span]. rewrite Hinfra. reflexivity.
  - apply run_noop_events.
  - intros name' inner inner' k'. split; reflexivity.
Qed.

(** ** The span tree of [getTrace] *)

Lemma find_app_split {A} (p : A -> bool) l1 l2 :
  find p (l1 ++ l2) = match find p l1 with Some x => Some x | None => find p l2 end.
Proof. induction l1 as [|x l1 IH]; simpl; [reflexivity|]. destruct (p x); auto. Qed.

Lemma map_get_set m k n k' :
  map_get (map_set m k n) k' = if String.eqb k k' then Some n else map_get m k'.
Proof.
  unfold map_get, map_set.
  destruct (existsb (fun e => String.eqb (fst e) k) m) eqn:Ex.
  - rewrite find_map_same_key.
    2:{ intros e. destruct (String.eqb (fst e) k) eqn:E; [|reflexivity].
        apply String.eqb_eq in E. cbn [fst]. rewrite E. reflexivity. }
    destruct (String.eqb k k') eqn:Ekk.
    + apply String.eqb_eq in Ekk. subst k'.
      destruct (find (fun e => String.eqb (fst e) k) m) as [[k0 n0]|] eqn:F.
      * apply find_some in F as [_ F]. cbn [fst] in F. cbn. rewrite F. reflexivity.
      * apply existsb_exists in Ex as [e [He Ee]].
        apply (find_none _ _ F) in He. congruence.
    + destruct (find (fun e => String.eqb (fst e) k') m) as [[k0 n0]|] eqn:F; cbn;
        [|reflexivity].
      apply find_some in F as [_ F]. cbn [fst] in F. apply String.eqb_eq in F. subst k0.
      rewrite String.eqb_sym, Ekk. reflexivity.
  - rewrite find_app_split.
    destruct (String.eqb k k') eqn:Ekk.
    + apply String.eqb_eq in Ekk. subst k'.
      destruct (find (fun e => String.eqb (fst e) k) m) as [[k0 n0]|] eqn:F.
      * apply find_some in F as [Hin F].
        assert (existsb (fun e => String.eqb (fst e) k) m = true)
          by (apply existsb_exists; exists (k0, n0); auto).
        congruence.
      * cbn. rewrite String.eqb_refl. reflexivity.
    + destruct (find (fun e => String.eqb (fst e) k') m) as [[k0 n0]|]; [reflexivity|].
      cbn. rewrite Ekk. reflexivity.
Qed.

Lemma insert_by_creation_perm x l : Permutation (insert_by_creation x l) (x :: l).
Proof.
  induction l as [|y l IH]; simpl; [reflexivity|].
  destruct (Z.ltb (sp_creationTime x) (sp_creationTime y)); [reflexivity|].
  rewrite IH. apply perm_swap.
Qed.

Lemma insert_by_creation_hd y x l :
  HdRel creation_le y l -> creation_le y x -> HdRel creation_le y (insert_by_creation x l).
Proof.
  intros H Hyx. destruct l as [|z l]; simpl.
  - constructor. exact Hyx.
  - destruct (Z.ltb (sp_creationTime x) (sp_creationTime z)); constructor;
      [exact Hyx | inversion H; assumption].
Qed.

Lemma insert_by_creation_sorted x l :
  Sorted creation_le l -> Sorted creation_le (insert_by_creation x l).
Proof.
  induction l as [|y l IH]; intros H; simpl.
  - repeat constructor.
  - destruct (Z.ltb (sp_creationTime x) (sp_creationTime y)) eqn:E.
    + constructor; [exact H|]. constructor. apply Z.ltb_lt in E. unfold creation_le. lia.
    + inversion H as [|? ? Hl Hhd]; subst. constructor; [apply IH, Hl|].
      apply insert_by_creation_hd; [exact Hhd|].
      apply Z.ltb_ge in E. unfold creation_le. lia.
Qed.

Lemma sort_by_creation_spec l :
  Permutation (sort_by_creation l) l /\ Sorted creation_le (sort_by_creation l).
Proof.
  unfold sort_by_creation.
  assert (G : forall acc, Sorted creation_le acc ->
            Permutation (fold_left (fun acc x => insert_by_creation x acc) l acc) (l ++ acc) /\
            Sorted creation_le (fold_left (fun acc x => insert_by_creation x acc) l acc)).
  { induction l as [|x l IH]; intros acc Hacc; simpl; [split; [reflexivity|exact Hacc]|].
    destruct (IH (insert_by_creation x acc)) as [P S];
      [apply insert_by_creation_sorted, Hacc|].
    split; [|exact S].
    rewrite P, insert_by_creation_perm. symmetry. apply Permutation_middle. }
  destruct (G [] (Sorted_nil _)) as [P S]. rewrite app_nil_r in P. auto.
Qed.

Section Chains.
Variable L : list Span.
Hypothesis HL : wf_spans L.

Lemma id_unique a b : In a L -> In b L -> sp_id a = sp_id b -> a = b.
Proof.
  destruct HL as [Hnd _]. clear HL. revert Hnd.
  induction L as [|x l IH]; intros Hnd Ha Hb E; [destruct Ha|].
  inversion Hnd as [|? ? Hx Hnd']; subst.
  destruct Ha as [<-|Ha], Hb as [<-|Hb]; auto.
  - exfalso. apply Hx. rewrite E. apply in_map, Hb.
  - exfalso. apply Hx. rewrite <- E. apply in_map, Ha.
Qed.

Lemma id_nonempty s : In s L -> sp_id s <> "".
Proof. destruct HL as [_ Hne]. rewrite Forall_forall in Hne. apply Hne. Qed.

Lemma find_id_in s : In s L -> find (fun t => String.eqb (sp_id t) (sp_id s)) L = Some s.
Proof.
  intros Hs. destruct (find (fun t => String.eqb (sp_id t) (sp_id s)) L) as [t|] eqn:F.
  - apply find_some in F as [Ht E]. apply String.eqb_eq in E.
    f_equal. apply id_unique; auto.
  - apply (find_none _ _ F) in Hs. rewrite String.eqb_refl in Hs. discriminate.
Qed.

Lemma chain_incl q : chain L q -> incl q L.
Proof.
  induction 1 as [s Hs _|c s ps Hc _ _ IH]; intros x Hx.
  - destruct Hx as [<-|[]]. exact Hs.
  - destruct Hx as [<-|Hx]; [exact Hc | apply IH, Hx].
Qed.

Lemma chain_parent_in_tail q x p :
  chain L q -> In x q -> sp_parentSpanId x = Some p -> p <> "" ->
  exists y, In y (tl q) /\ sp_id y = p.
Proof.
  intros Hq. revert x p. induction Hq as [s Hs Hr|c s ps Hc Hcp Hq IH];
    intros x p Hx Hxp Hp.
  - destruct Hx as [<-|[]]. rewrite Hxp in Hr. cbn in Hr.
    apply negb_false_iff, String.eqb_eq in Hr. contradiction.
  - destruct Hx as [<-|Hx].
    + exists s. split; [left; reflexivity|]. congruence.
    + destruct (IH x p Hx Hxp Hp) as (y & Hy & E). exists y. split; [|exact E].
      cbn [tl] in *. right. exact Hy.
Qed.

Lemma chain_nodup q : chain L q -> NoDup q.
Proof.
  induction 1 as [s Hs _|c s ps Hc Hcp Hq IH].
  - repeat constructor. intros [].
  - constructor; [|exact IH]. intros Hin.
    destruct (chain_parent_in_tail _ c (sp_id s) Hq Hin Hcp) as (y & Hy & E).
    { apply id_nonempty. apply (chain_incl _ Hq). left. reflexivity. }
    cbn [tl] in Hy.
    assert (y = s).
    { apply id_unique; [apply (chain_incl _ Hq); right; exact Hy|
                        apply (chain_incl _ Hq); left; reflexivity | exact E]. }
    subst y. inversion IH as [|? ? Hs _]. contradiction.
Qed.

Lemma chain_length q : chain L q -> (List.length q <= List.length L)%nat.
Proof.
  intros Hq. apply NoDup_incl_length; [apply chain_nodup, Hq | apply chain_incl, Hq].
Qed.

End Chains.

Section SpanMapBuild.
Variables (db : DB) (traceId : Id).
Hypothesis HL : wf_spans (spans_by_traceId db traceId).

Local Abbreviation L := (spans_by_traceId db traceId).
Local Abbreviation node0 := (fun s => mkNode s (logs_by_spanId db (sp_id s)) []).

Lemma spanMap0_get l m k :
  NoDup (map sp_id l) ->
  map_get (fold_left (fun m n => map_set m (sp_id (nd_span n)) n) (map node0 l) m) k =
  match find (fun s => String.eqb (sp_id s) k) l with
  | Some s => Some (node0 s)
  | None => map_get m k
  end.
Proof.
  revert m. induction l as [|x l IH]; intros m Hnd; simpl; [reflexivity|].
  inversion Hnd as [|? ? Hx Hnd']; subst.
  rewrite IH by exact Hnd'. rewrite map_get_set.
  destruct (String.eqb (sp_id x) k) eqn:E.
  - apply String.eqb_eq in E. subst k.
    destruct (find (fun s => String.eqb (sp_id s) (sp_id x)) l) as [y|] eqn:F;
      [|reflexivity].
    apply find_some in F as [Hy Ey]. apply String.eqb_eq in Ey.
    exfalso. apply Hx. rewrite <- Ey. apply in_map, Hy.
  - destruct (find (fun s => String.eqb (sp_id s) k) l); reflexivity.
Qed.

(** The map after the [push_child] pass over the spans [pre]. *)
Definition map_inv (pre : list Span) (m : SpanMap) : Prop :=
  forall k, map_get m k =
    match find (fun s => String.eqb (sp_id s) k) L with
    | Some s => Some (mkNode s (logs_by_spanId db (sp_id s))
                        (filter (fun c => option_id_eqb (sp_parentSpanId c) (sp_id s)) pre))
    | None => None
    end.

Lemma find_L_some k s :
  find (fun s => String.eqb (sp_id s) k) L = Some s -> In s L /\ sp_id s = k.
Proof. intros F. apply find_some in F as [H E]. apply String.eqb_eq in E. auto. Qed.

Lemma push_child_inv pre c m :
  map_inv pre m -> map_inv (pre ++ [c]) (push_child m (node0 c)).
Proof.
  intros Hinv k. unfold push_child. cbn [nd_span].
  destruct (truthy_str (sp_parentSpanId c)) eqn:T.
  - destruct (sp_parentSpanId c) as [p|] eqn:P; [|discriminate T].
    destruct (map_get m p) as [pn|] eqn:G.
    + rewrite map_get_set. rewrite Hinv in G.
      destruct (find (fun s => String.eqb (sp_id s) p) L) as [sp|] eqn:Fp; [|discriminate G].
      injection G as <-. cbn [nd_span nd_logs nd_children].
      destruct (String.eqb p k) eqn:Epk.
      * apply String.eqb_eq in Epk. subst k. rewrite Fp.
        apply find_L_some in Fp as [_ Ep].
        rewrite filter_app. cbn [filter]. rewrite P. cbn [option_id_eqb]. rewrite Ep, String.eqb_refl.
        reflexivity.
      * rewrite Hinv. destruct (find (fun s => String.eqb (sp_id s) k) L) as [s|] eqn:Fk;
          [|reflexivity].
        apply find_L_some in Fk as [_ Ek].
        rewrite filter_app. cbn [filter]. rewrite P. cbn [option_id_eqb]. rewrite Ek, Epk, app_nil_r.
        reflexivity.
    + rewrite Hinv. destruct (find (fun s => String.eqb (sp_id s) k) L) as [s|] eqn:Fk;
        [|reflexivity].
      rewrite filter_app. cbn [filter]. rewrite P. cbn [option_id_eqb].
      destruct (String.eqb p (sp_id s)) eqn:Eps; [|rewrite app_nil_r; reflexivity].
      apply String.eqb_eq in Eps. pose proof (find_L_some _ _ Fk) as [_ Ek].
      rewrite Hinv in G. rewrite Eps, Ek, Fk in G. discriminate G.
  - rewrite Hinv. destruct (find (fun s => String.eqb (sp_id s) k) L) as [s|] eqn:Fk;
      [|reflexivity].
    apply find_L_some in Fk as [Hs _].
    rewrite filter_app. cbn [filter].
    destruct (sp_parentSpanId c) as [p|]; cbn [option_id_eqb];
      [|rewrite app_nil_r; reflexivity].
    cbn in T. apply negb_false_iff, String.eqb_eq in T. subst p.
    destruct (String.eqb "" (sp_id s)) eqn:E; [|rewrite app_nil_r; reflexivity].
    apply String.eqb_eq in E. exfalso. apply (id_nonempty _ HL s Hs). congruence.
Qed.

Lemma push_child_fold post pre m :
  map_inv pre m -> map_inv (pre ++ post) (fold_left push_child (map node0 post) m).
Proof.
  revert pre m. induction post as [|c post IH]; intros pre m Hinv; simpl.
  - rewrite app_nil_r. exact Hinv.
  - replace (pre ++ c :: post) with ((pre ++ [c]) ++ post)
      by (rewrite <- app_assoc; reflexivity).
    apply IH, push_child_inv, Hinv.
Qed.

End SpanMapBuild.

Section RenderOk.
Variables (db : DB) (traceId : Id).
Hypothesis HL : wf_spans (spans_by_traceId db traceId).

Local Abbreviation L := (spans_by_traceId db traceId).
Local Abbreviation node0 := (fun s => mkNode s (logs_by_spanId db (sp_id s)) []).
Local Abbreviation spanMap :=
  (fold_left push_child (map node0 L)
     (fold_left (fun m n => map_set m (sp_id (nd_span n)) n) (map node0 L) [])).

Lemma spanMap_get s :
  In s L -> map_get spanMap (sp_id s) =
            Some (mkNode s (logs_by_spanId db (sp_id s)) (children_of db traceId s)).
Proof.
  intros Hs.
  assert (Hinv : map_inv db traceId L spanMap).
  { apply (push_child_fold db traceId HL L []). intros k.
    rewrite spanMap0_get by (destruct HL; assumption).
    destruct (find _ _); reflexivity. }
  rewrite Hinv, (find_id_in _ HL s Hs). reflexivity.
Qed.

Lemma render_span f s : In s L -> tree_span (render f spanMap s) = s.
Proof. intros Hs. destruct f; cbn [render]; rewrite (spanMap_get s Hs); reflexivity. Qed.

Lemma children_of_spec s c :
  In c (children_of db traceId s) <-> In c L /\ sp_parentSpanId c = Some (sp_id s).
Proof.
  unfold children_of. rewrite filter_In.
  destruct (sp_parentSpanId c) as [p|]; cbn [option_id_eqb].
  - rewrite String.eqb_eq. split; intros [H E]; split; congruence.
  - split; intros [_ E]; discriminate.
Qed.

Lemma map_tree_span_sorted f l :
  incl l L -> map tree_span (map (render f spanMap) l) = l.
Proof.
  intros Hl. rewrite map_map. rewrite <- (map_id l) at 2. apply map_ext_in.
  intros s Hs. apply render_span, Hl, Hs.
Qed.

Lemma render_ok f s ps :
  chain L (s :: ps) -> (List.length L + 1 <= List.length (s :: ps) + f)%nat ->
  forall t, in_tree t (render f spanMap s) -> node_ok db traceId t.
Proof.
  revert s ps. induction f as [|f IH]; intros s ps Hc Hlen t Ht.
  - pose proof (chain_length _ HL _ Hc). lia.
  - assert (Hs : In s L) by (apply (chain_incl _ _ Hc); left; reflexivity).
    cbn [render] in Ht. rewrite (spanMap_get s Hs) in Ht. cbn [nd_span nd_logs nd_children] in Ht.
    destruct (sort_by_creation_spec (children_of db traceId s)) as [P S].
    assert (Hincl : incl (sort_by_creation (children_of db traceId s)) L).
    { intros c Hc'. apply (Permutation_in _ P), children_of_spec in Hc'. tauto. }
    inversion Ht as [|s' ls cs c Hin Hct]; subst.
    + cbn [node_ok]. rewrite map_tree_span_sorted by exact Hincl. auto.
    + apply in_map_iff in Hin as (c' & <- & Hc').
      pose proof Hc' as Hc''. apply (Permutation_in _ P), children_of_spec in Hc'' as [Hc'L Hp].
      apply (IH c' (s :: ps)); [| cbn [List.length] in *; lia | exact Hct].
      apply chain_cons; assumption.
Qed.

End RenderOk.



(** ** The claims on concrete inputs *)

(** C1 on [example_db]: the trace [t1] (rate 0, no decision) is deleted by
    a cleanup that draws 1/2. *)
Lemma cleanupTrace_policy_witness :
  get_trace example_db "t1" = Some (mkTrace "t1" 1 Pending 0 None 1 (Some "anonymous")) /\
  trace_kept (cleanupTrace example_db "t1" (1#2)) "t1" = false.
Proof.
  split; [reflexivity|].
  destruct (cleanupTrace_policy example_db "t1" (1#2)
              (mkTrace "t1" 1 Pending 0 None 1 (Some "anonymous")) eq_refl)
    as (_ & _ & H).
  destruct (H eq_refl) as (_ & _ & _ & K).
  apply not_true_is_false. intros E.
  apply K in E. vm_compute in E. discriminate E.
Defined.

(** C2 on [example_db]: a root invocation whose handler throws, with the
    default [preserveErrors = true], ends with [preserve] still pending, and
    a cleanup run then (draw 0) deletes the trace. *)
Lemma preserve_not_awaited_before_cleanup_witness :
  hook_ok (opt_onError plain_options) = true /\
  In (MUpdateTracePreserve "t1" (Some true) None)
     (pending (run_main example_db
                 (fst (executeTracedHandler example_db "t1" "s1" 0%Z plain_options
                         default_tracer (inl (ErrorObj "boom")) true (inr tt))) [] [])) /\
  get_trace (cleanupTrace
               (rdb (run_main example_db
                       (fst (executeTracedHandler example_db "t1" "s1" 0%Z plain_options
                               default_tracer (inl (ErrorObj "boom")) true (inr tt)))
                       [] []))
               "t1" 0) "t1" = None.
Proof.
  destruct (preserve_not_awaited_before_cleanup example_db "t1" "s1" 0%Z plain_options
              default_tracer (ErrorObj "boom") true eq_refl eq_refl eq_refl
              ltac:(intros ? H; discriminate H))
    as (_ & _ & Hp & _ & _ & _ & Hdel).
  split; [reflexivity|]. split; [exact Hp|].
  apply (Hdel (mkTrace "t1" 1 Pending 0 None 1 (Some "anonymous")) 0);
    [reflexivity | reflexivity | apply Qle_refl].
Defined.


(** C4 with [sampleRate: 0]: no cleanup job is scheduled. *)
Lemma cleanup_scheduled_iff_nonzero_rate_below_one_witness :
  ~ exists delay tid,
      In (EvAwait (MRunAfter delay tid))
         (fst (executeTracedHandler example_db "t1" "s1" 0%Z
                 (mkOptions (Some 0) None None false None None None) default_tracer
                 (inr VUndefined) true (inr tt))).
Proof.
  destruct (cleanup_scheduled_iff_nonzero_rate_below_one example_db "t1" "s1" 0%Z
              (mkOptions (Some 0) None None false None None None) default_tracer
              (inr VUndefined) true) as (_ & [H _] & _).
  intros Hex. apply H in Hex as [Hz _]. apply Hz. reflexivity.
Defined.

(** C5 with the token [{traceId: t1, spanId: s1}]: a child span is added and
    the invocation is not root; with the malformed parent id [bogus] the
    span insertion is rejected. *)
Lemma setupTraceContext_child_witness :
  (exists db1 out,
     setupTraceContext example_db (Some (mkTraceContext "t1" "s1" (Some (1#2)) (Some 60)
                                           (Some false)))
       5%Z "child" (1#10) 120 true (Some "child") VUndefined = inr (db1, out) /\
     so_isRoot out = false) /\
  setupTraceContext example_db (Some (mkTraceContext "t1" "bogus" None None None))
    5%Z "child" (1#10) 120 true (Some "child") VUndefined = inl (schema_error "spans").
Proof.
  split.
  - destruct (proj1 (setupTraceContext_child example_db
                (mkTraceContext "t1" "s1" (Some (1#2)) (Some 60) (Some false))
                5%Z "child" (1#10) 120 true (Some "child") VUndefined)
                eq_refl (or_intror eq_refl))
      as (db1 & out & sp & H1 & _ & _ & _ & _ & H6 & _).
    exists db1, out. split; assumption.
  - apply (proj2 (setupTraceContext_child example_db
             (mkTraceContext "t1" "bogus" None None None)
             5%Z "child" (1#10) 120 true (Some "child") VUndefined)).
    + discriminate.
    + right. split; [discriminate | reflexivity].
Defined.

(** C6 with the token [{traceId: t1, spanId: s9}], [s9] a span id that is
    not stored: the handler runs. *)
Lemma forged_parent_spanId_reaches_handler_witness :
  exists db1 m,
    tracedInvoke example_db (Some (mkTraceContext "t1" "s9" None None None)) "child"
      plain_options default_tracer (inr (VNum 1)) VUndefined (inr tt) = inr (db1, m) /\
    In EvHandler (fst m).
Proof.
  apply (forged_parent_spanId_reaches_handler example_db
           (mkTraceContext "t1" "s9" None None None) "child" plain_options
           default_tracer (inr (VNum 1)) VUndefined (inr tt));
    reflexivity.
Defined.

(** C7 without a token: the invocation is rejected by [createTrace]. *)
Lemma root_invocation_createTrace_rejected_witness :
  tracedInvoke example_db None "root" plain_options default_tracer (inr VUndefined)
    VUndefined (inr tt) =
  inl (ErrorObj "ArgumentValidationError: Object is missing the required field `userId`").
Proof.
  apply (root_invocation_createTrace_rejected example_db None "root" plain_options
           default_tracer (inr VUndefined) VUndefined (inr tt)).
  reflexivity.
Defined.


(** C9 on a preserved trace with rate 1/2: [sample(0)] clears [preserve] but
    keeps the rate 1/2. *)
Lemma sample_resets_preserve_but_ignores_zero_witness :
  exists trace',
    get_trace (api_sample (mkTracingAPI "t1" "s1" default_tracer) (Some 0)
                 (mkDB [mkTrace "t1" 1 Pending (1#2) (Some true) 1 (Some "anonymous")]
                       [] [] [] 10 0)) "t1" = Some trace' /\
    tr_preserve trace' = None /\ tr_sampleRate trace' = 1#2.
Proof.
  destruct (sample_resets_preserve_but_ignores_zero (mkTracingAPI "t1" "s1" default_tracer)
              (mkDB [mkTrace "t1" 1 Pending (1#2) (Some true) 1 (Some "anonymous")]
                    [] [] [] 10 0)
              (mkTrace "t1" 1 Pending (1#2) (Some true) 1 (Some "anonymous")) (Some 0)
              eq_refl) as (t' & H1 & H2 & H3).
  exists t'. split; [exact H1|]. split; [exact H2|]. rewrite H3. reflexivity.
Defined.

(** C10 with a failing [createSpan]: the nested [withSpan] block and its
    work are skipped; only the console error remains. *)
Lemma failed_span_falls_back_to_noop_witness :
  run_span (fun _ => false) (mkTracingAPI "t1" "s1" default_tracer) "s1"
    (BWithSpan "child"
       (BWithSpan "grandchild" (BWork "nested" (BRet (VNum 1))) (fun v => BRet v))
       (fun v => BRet v))
    example_db =
  (example_db, [EvConsoleError "[Tracer] Failed to create child span:"], inr VUndefined).
Proof.
  destruct (failed_span_falls_back_to_noop (fun _ => false)
              (mkTracingAPI "t1" "s1" default_tracer) "s1" "child"
              (BWithSpan "grandchild" (BWork "nested" (BRet (VNum 1))) (fun v => BRet v))
              (fun v => BRet v) example_db eq_refl) as (H & _ & _).
  rewrite H. reflexivity.
Defined.

(* ------------------------------------------------------------------------ *)
(** ** Argument objects *)

Lemma obj_get_cons {A} (e : string * A) o k :
  obj_get (e :: o) k = if String.eqb (fst e) k then Some (snd e) else obj_get o k.
Proof. unfold obj_get. cbn. destruct (String.eqb (fst e) k); reflexivity. Qed.

Lemma obj_get_none {A} (o : Obj A) k :
  obj_get o k = None <-> ~ In k (map fst o).
Proof.
  induction o as [|e o IH]; cbn -[obj_get].
  - split; [intros _ []|reflexivity].
  - rewrite obj_get_cons. destruct (String.eqb_spec (fst e) k) as [E|E].
    + split; [discriminate|]. intros H. exfalso. apply H. left. exact E.
    + rewrite IH. split.
      * intros H [H'|H']; [exact (E H')|exact (H H')].
      * intros H H'. apply H. right. exact H'.
Qed.

Lemma obj_set_cons {A} (e : string * A) o k v :
  obj_set (e :: o) k v =
  if String.eqb (fst e) k
  then (k, v) :: map (fun e => if String.eqb (fst e) k then (k, v) else e) o
  else e :: obj_set o k v.
Proof.
  unfold obj_set. cbn. destruct (String.eqb (fst e) k); [reflexivity|].
  cbn. destruct (existsb _ o); reflexivity.
Qed.

Lemma obj_get_map_set {A} (o : Obj A) k v k' :
  k <> k' ->
  obj_get (map (fun e => if String.eqb (fst e) k then (k, v) else e) o) k' = obj_get o k'.
Proof.
  intros D. induction o as [|e o IH]; [reflexivity|].
  cbn [map]. rewrite !obj_get_cons, IH.
  destruct (String.eqb_spec (fst e) k) as [E|E]; [|reflexivity].
  cbn. rewrite E. apply String.eqb_neq in D. rewrite D. reflexivity.
Qed.

Lemma obj_get_set {A} (o : Obj A) k v k' :
  obj_get (obj_set o k v) k' = if String.eqb k k' then Some v else obj_get o k'.
Proof.
  induction o as [|e o IH].
  - unfold obj_set, obj_get. cbn. destruct (String.eqb k k'); reflexivity.
  - rewrite obj_set_cons, obj_get_cons.
    destruct (String.eqb_spec (fst e) k) as [E|E].
    + rewrite obj_get_cons. cbn [fst snd].
      destruct (String.eqb_spec k k') as [->|D]; [reflexivity|].
      rewrite E, (proj2 (String.eqb_neq _ _) D). apply obj_get_map_set. exact D.
    + rewrite obj_get_cons, IH.
      destruct (String.eqb_spec k k') as [Ek|D]; [|reflexivity].
      rewrite <- Ek. apply String.eqb_neq in E. rewrite E. reflexivity.
Qed.

Lemma obj_get_delete {A} (o : Obj A) k k' :
  obj_get (obj_delete o k) k' = if String.eqb k k' then None else obj_get o k'.
Proof.
  induction o as [|e o IH].
  - cbn. destruct (String.eqb k k'); reflexivity.
  - unfold obj_delete in *. cbn [filter].
    destruct (String.eqb_spec (fst e) k) as [E|E]; cbn [negb].
    + rewrite IH, obj_get_cons, E.
      destruct (String.eqb k k'); reflexivity.
    + rewrite !obj_get_cons, IH.
      destruct (String.eqb_spec k k') as [Ek|D]; [|reflexivity].
      rewrite <- Ek. apply String.eqb_neq in E. rewrite E. reflexivity.
Qed.

Lemma obj_delete_absent {A} (o : Obj A) k :
  obj_get o k = None -> obj_delete o k = o.
Proof.
  induction o as [|e o IH]; [reflexivity|].
  rewrite obj_get_cons. unfold obj_delete in *. cbn [filter].
  destruct (String.eqb (fst e) k); [discriminate|].
  intros H. cbn. rewrite (IH H). reflexivity.
Qed.

Lemma obj_delete_map_set {A} (o : Obj A) k v :
  obj_delete (map (fun e => if String.eqb (fst e) k then (k, v) else e) o) k =
  obj_delete o k.
Proof.
  induction o as [|e o IH]; [reflexivity|].
  unfold obj_delete in *. cbn [map filter].
  destruct (String.eqb (fst e) k) eqn:E; cbn [fst negb].
  - rewrite String.eqb_refl. exact IH.
  - rewrite E. cbn. rewrite IH. reflexivity.
Qed.

Lemma obj_delete_set {A} (o : Obj A) k v :
  obj_delete (obj_set o k v) k = obj_delete o k.
Proof.
  induction o as [|e o IH].
  - unfold obj_delete. cbn. rewrite String.eqb_refl. reflexivity.
  - rewrite obj_set_cons. unfold obj_delete in *.
    destruct (String.eqb (fst e) k) eqn:E; cbn [filter fst negb].
    + rewrite String.eqb_refl, E. apply obj_delete_map_set.
    + rewrite E. cbn. rewrite IH. reflexivity.
Qed.

Lemma obj_get_pick {A} (o : Obj A) keys k :
  obj_get (pick o keys) k = if existsb (String.eqb k) keys then obj_get o k else None.
Proof.
  induction o as [|e o IH].
  - cbn. destruct (existsb _ keys); reflexivity.
  - unfold pick in *. cbn [filter].
    destruct (existsb (String.eqb (fst e)) keys) eqn:K.
    + rewrite !obj_get_cons, IH.
      destruct (String.eqb_spec (fst e) k) as [<-|D]; [rewrite K; reflexivity|reflexivity].
    + rewrite IH, obj_get_cons.
      destruct (String.eqb_spec (fst e) k) as [<-|D]; [rewrite K; reflexivity|reflexivity].
Qed.

(** [createRunTracedFunction] and [extractTraceContext]: the called function
    recovers exactly the trace context the caller attached, even over a
    [__traceContext] entry the caller's arguments already had, and the
    caller's other arguments unchanged. *)
Theorem extractTraceContext_argsWithTrace {A} (args : Obj A) (traceContext : A) :
  extractTraceContext (argsWithTrace args traceContext) =
    (Some traceContext, obj_delete args "__traceContext") /\
  (obj_get args "__traceContext" = None ->
   extractTraceContext (argsWithTrace args traceContext) = (Some traceContext, args)).
Proof.
  unfold extractTraceContext, argsWithTrace.
  rewrite obj_get_set, String.eqb_refl, obj_delete_set.
  split; [reflexivity|]. intros H. rewrite (obj_delete_absent _ _ H). reflexivity.
Qed.

(** [prepareLogArgs] runs on the arguments [extractTraceContext] returns:
    whatever [logArgs] says, the logged object never holds the hidden
    [__traceContext] token. *)
Theorem logged_args_never_hold_traceContext {A} (allArgs : Obj A) logArgs p :
  prepareLogArgs (snd (extractTraceContext allArgs)) logArgs = Some p ->
  obj_get p "__traceContext" = None.
Proof.
  unfold prepareLogArgs, extractTraceContext. cbn [snd].
  destruct logArgs as [|[]|keys]; cbn; try discriminate; intros H; injection H as <-.
  - rewrite obj_get_delete, String.eqb_refl. reflexivity.
  - rewrite obj_get_pick, obj_get_delete, String.eqb_refl.
    destruct (existsb _ keys); reflexivity.
Qed.

(** [prepareLogArgs] with an array of names logs an object (even for an
    empty array) holding, for each key, the argument's value when the key
    is listed and nothing otherwise. *)
Theorem prepareLogArgs_keys {A} (args : Obj A) keys :
  exists p, prepareLogArgs args (LAKeys keys) = Some p /\
    forall k, obj_get p k = if existsb (String.eqb k) keys then obj_get args k else None.
Proof.
  exists (pick args keys). split; [reflexivity|]. apply obj_get_pick.
Qed.

(* ------------------------------------------------------------------------ *)
(** ** Metadata *)

Lemma obj_get_spread {A} (o1 o2 : Obj A) k :
  NoDup (map fst o2) ->
  obj_get (obj_spread o1 o2) k =
  match obj_get o2 k with Some v => Some v | None => obj_get o1 k end.
Proof.
  unfold obj_spread. revert o1.
  induction o2 as [|e o2 IH]; intros o1 Hnd; [reflexivity|].
  inversion Hnd as [|? ? Hnin Hnd']; subst. cbn [fold_left].
  rewrite (IH _ Hnd'), obj_get_set, obj_get_cons.
  destruct (String.eqb_spec (fst e) k) as [<-|_]; [|reflexivity].
  rewrite (proj2 (obj_get_none _ _) Hnin). reflexivity.
Qed.

Lemma obj_get_merge {A} (old : option (Obj A)) new k :
  NoDup (map fst new) ->
  obj_get (merge_metadata old new) k =
  match obj_get new k with
  | Some v => Some v
  | None => match old with Some o => obj_get o k | None => None end
  end.
Proof.
  intros Hnd. unfold merge_metadata. rewrite (obj_get_spread _ _ _ Hnd).
  destruct old; reflexivity.
Qed.

Lemma get_span_some db id s :
  get_span db id = Some s -> In s (spans db) /\ sp_id s = id.
Proof.
  unfold get_span. intros H. split.
  - exact (proj1 (find_some _ _ H)).
  - apply String.eqb_eq, (proj2 (find_some _ _ H)).
Qed.

(** [updateTraceMetadata] throws the argument-validation error when
    [traceId] is not a trace id, and [Trace not found] for a trace id of no
    stored trace; on a stored one, each key reads the new value if given,
    else the old one, no other trace's metadata changes, and nothing that
    [cleanupTrace] reads changes. *)
Theorem updateTraceMetadata_merges db meta traceId metadata :
  NoDup (map fst metadata) ->
  (valid_id Traces traceId = false ->
     updateTraceMetadata db meta traceId metadata = inl (invalid_id_error traceId)) /\
  (valid_id Traces traceId = true -> get_trace db traceId = None ->
     updateTraceMetadata db meta traceId metadata =
       inl (ErrorObj ("Trace not found: " ++ traceId)%string)) /\
  (verifyTrace db traceId = inr true ->
     exists db' meta',
       updateTraceMetadata db meta traceId metadata = inr (db', meta') /\
       (exists m, meta' traceId = Some m /\
          forall k, obj_get m k =
            match obj_get metadata k with
            | Some v => Some v
            | None => match meta traceId with Some o => obj_get o k | None => None end
            end) /\
       (forall id, id <> traceId -> meta' id = meta id) /\
       (forall id, trace_policy db' id = trace_policy db id) /\
       spans db' = spans db /\ logs db' = logs db).
Proof.
  intros Hnd. split; [|split].
  - intros V. unfold updateTraceMetadata, db_get_trace. rewrite V. reflexivity.
  - intros V G. unfold updateTraceMetadata, db_get_trace. rewrite V, G. reflexivity.
  - intros Hv. destruct (proj1 (verifyTrace_true _ _) Hv) as [V Gn].
    destruct (get_trace db traceId) as [trace|] eqn:G; [|contradiction].
    destruct (get_trace_some _ _ _ G) as [_ Eid].
    unfold updateTraceMetadata, db_get_trace. rewrite V, G.
    destruct (patch_trace db traceId _) as [e|db'] eqn:P.
    { unfold patch_trace in P. rewrite G in P. discriminate P. }
    exists db', (meta_set meta traceId (merge_metadata (meta (tr_id trace)) metadata)).
    split; [reflexivity|]. split; [|split; [|split]].
    + eexists. unfold meta_set. rewrite String.eqb_refl. split; [reflexivity|].
      intros k. rewrite (obj_get_merge _ _ _ Hnd), Eid. reflexivity.
    + intros id D. unfold meta_set. rewrite (proj2 (String.eqb_neq _ _) D). reflexivity.
    + intros id. refine (patch_trace_policy db traceId _ db' id _ _ _ P);
        intros t; reflexivity.
    + unfold patch_trace in P. rewrite G in P. injection P as <-. split; reflexivity.
Qed.

(** [updateSpanMetadata] throws the argument-validation error when
    [spanId] is not a span id, and [Span not found] for a span id of no
    stored span; on a stored one, each key reads the new value if given,
    else the old one, and no other span's metadata changes. *)
Theorem updateSpanMetadata_merges db meta spanId metadata :
  NoDup (map fst metadata) ->
  (valid_id Spans spanId = false ->
     updateSpanMetadata db meta spanId metadata = inl (invalid_id_error spanId)) /\
  (valid_id Spans spanId = true -> get_span db spanId = None ->
     updateSpanMetadata db meta spanId metadata =
       inl (ErrorObj ("Span not found: " ++ spanId)%string)) /\
  (verifySpan db spanId = inr true ->
     exists meta',
       updateSpanMetadata db meta spanId metadata = inr meta' /\
       (exists m, meta' spanId = Some m /\
          forall k, obj_get m k =
            match obj_get metadata k with
            | Some v => Some v
            | None => match meta spanId with Some o => obj_get o k | None => None end
            end) /\
       (forall id, id <> spanId -> meta' id = meta id)).
Proof.
  intros Hnd. split; [|split].
  - intros V. unfold updateSpanMetadata, db_get_span. rewrite V. reflexivity.
  - intros V G. unfold updateSpanMetadata, db_get_span. rewrite V, G. reflexivity.
  - intros Hv. destruct (proj1 (verifySpan_true _ _) Hv) as [V Gn].
    destruct (get_span db spanId) as [span|] eqn:G; [|contradiction].
    destruct (get_span_some _ _ _ G) as [_ Eid].
    unfold updateSpanMetadata, db_get_span. rewrite V, G, Eid. eexists. split; [reflexivity|]. split.
    + eexists. unfold meta_set. rewrite String.eqb_refl. split; [reflexivity|].
      intros k. apply (obj_get_merge _ _ _ Hnd).
    + intros id D. unfold meta_set. rewrite (proj2 (String.eqb_neq _ _) D). reflexivity.
Qed.

(* ------------------------------------------------------------------------ *)
(** ** Listing traces *)

Lemma listTraces_spec db st uid lim :
  listTraces db st uid lim = take_or_collect lim (scan_desc db (listTraces_filter st uid)).
Proof.
  unfold listTraces, listTraces_filter.
  destruct st as [st|], uid as [u|]; cbn [truthy_str];
    try destruct (String.eqb u "") eqn:U; cbn [negb];
    f_equal; unfold scan_desc; f_equal; apply filter_ext; intros t;
    try destruct (status_eqb _ _); reflexivity.
Qed.

Lemma in_take_or_collect lim (l : list Trace) t :
  In t (take_or_collect lim l) -> In t l.
Proof.
  unfold take_or_collect. destruct lim as [n|]; [|exact id].
  destruct (Nat.eqb n 0); [exact id|].
  intros H. rewrite <- (firstn_skipn n l). apply in_or_app. left. exact H.
Qed.

(** The four branches of [listTraces] apply one filter to the newest-first
    scan: a limit of [0] is no limit, and an empty [userId] is no user
    filter. *)
Theorem listTraces_one_filter db st uid lim :
  listTraces db st uid lim = take_or_collect lim (scan_desc db (listTraces_filter st uid)) /\
  listTraces db st uid (Some 0%nat) = listTraces db st uid None /\
  listTraces db st (Some "") lim = listTraces db st None lim.
Proof.
  split; [apply listTraces_spec|]. rewrite !listTraces_spec. split; reflexivity.
Qed.

(** [listTraces] returns only stored traces that pass its filters, newest
    first as stored; a positive limit bounds the count, and without one
    every stored trace that passes the filters is returned. *)
Theorem listTraces_sound_complete db st uid lim :
  (forall t, In t (listTraces db st uid lim) ->
     In t (traces db) /\ listTraces_filter st uid t = true) /\
  (forall n, lim = Some n -> (0 < n)%nat -> (List.length (listTraces db st uid lim) <= n)%nat) /\
  ((lim = None \/ lim = Some 0%nat) ->
     listTraces db st uid lim = rev (filter (listTraces_filter st uid) (traces db))).
Proof.
  rewrite listTraces_spec. unfold scan_desc. split; [|split].
  - intros t H. apply in_take_or_collect, in_rev in H. apply filter_In in H. exact H.
  - intros n -> Hn. unfold take_or_collect.
    destruct (Nat.eqb_spec n 0) as [E|_]; [lia|]. apply firstn_le_length.
  - intros [-> | ->]; reflexivity.
Qed.

(* ------------------------------------------------------------------------ *)
(** ** What a cleanup leaves alone *)

Lemma nodup_map_inj {A B} (f : A -> B) l a b :
  NoDup (map f l) -> In a l -> In b l -> f a = f b -> a = b.
Proof.
  induction l as [|x l IH]; [intros _ []|].
  cbn [map]. intros Hnd Ha Hb E. inversion Hnd as [|? ? Hnin Hnd']; subst.
  destruct Ha as [<-|Ha], Hb as [<-|Hb]; try reflexivity.
  - exfalso. apply Hnin. rewrite E. apply in_map. exact Hb.
  - exfalso. apply Hnin. rewrite <- E. apply in_map. exact Ha.
  - exact (IH Hnd' Ha Hb E).
Qed.

Lemma find_filter_weaker {A} (p q : A -> bool) l :
  (forall x, p x = true -> q x = true) -> find p (filter q l) = find p l.
Proof.
  intros H. induction l as [|x l IH]; [reflexivity|]. cbn.
  destruct (p x) eqn:P.
  - rewrite (H x P). cbn. rewrite P. reflexivity.
  - destruct (q x); cbn; [rewrite P|]; exact IH.
Qed.

Lemma deleteTrace_spares db traceId :
  NoDup (map sp_id (spans db)) -> NoDup (map lg_id (logs db)) ->
  (forall id, id <> traceId -> get_trace (deleteTrace db traceId) id = get_trace db id) /\
  (forall s, In s (spans db) -> sp_traceId s <> traceId -> In s (spans (deleteTrace db traceId))) /\
  (forall l s, In l (logs db) -> In s (spans db) -> lg_spanId l = sp_id s ->
     sp_traceId s <> traceId -> In l (logs (deleteTrace db traceId))).
Proof.
  intros Hs Hl. unfold deleteTrace. cbv zeta. unfold delete_trace, set_traces.
  cbn [traces spans logs]. split; [|split].
  - intros id D. unfold get_trace. cbn [traces].
    rewrite fold_delete_span_traces, fold_delete_log_traces.
    apply find_filter_weaker. intros t E. apply String.eqb_eq in E. subst id.
    apply negb_true_iff, String.eqb_neq. exact D.
  - intros s In_s D. rewrite fold_delete_span_spans, fold_delete_log_spans.
    apply filter_In. split; [exact In_s|].
    apply negb_true_iff, not_true_iff_false. intros Hin.
    apply existsb_eqb_in, in_map_iff in Hin as (s2 & E & Hs2).
    apply filter_In in Hs2 as [Hs2 T]. apply String.eqb_eq in T.
    rewrite (nodup_map_inj _ _ _ _ Hs Hs2 In_s E) in T. exact (D T).
  - intros l s In_l In_s El D. rewrite fold_delete_span_logs, fold_delete_log_logs.
    apply filter_In. split; [exact In_l|].
    apply negb_true_iff, not_true_iff_false. intros Hin.
    apply existsb_eqb_in, in_map_iff in Hin as (l2 & E & Hl2).
    apply in_concat in Hl2 as (xs & Hxs & Hl2).
    apply in_map_iff in Hxs as (s2 & <- & Hs2).
    apply filter_In in Hs2 as [Hs2 T]. apply String.eqb_eq in T.
    apply filter_In in Hl2 as [Hl2 T2]. apply String.eqb_eq in T2.
    rewrite (nodup_map_inj _ _ _ _ Hl Hl2 In_l E) in T2.
    rewrite El in T2. rewrite (nodup_map_inj _ _ _ _ Hs Hs2 In_s (eq_sym T2)) in T.
    exact (D T).
Qed.

(** [cleanupTrace] of one trace, whatever it decides, leaves every other
    trace, the spans of other traces and the logs of those spans in place
    (document ids being unique). *)
Theorem cleanupTrace_spares_other_traces db traceId random :
  NoDup (map sp_id (spans db)) -> NoDup (map lg_id (logs db)) ->
  (forall id, id <> traceId ->
     get_trace (cleanupTrace db traceId random) id = get_trace db id) /\
  (forall s, In s (spans db) -> sp_traceId s <> traceId ->
     In s (spans (cleanupTrace db traceId random))) /\
  (forall l s, In l (logs db) -> In s (spans db) -> lg_spanId l = sp_id s ->
     sp_traceId s <> traceId -> In l (logs (cleanupTrace db traceId random))).
Proof.
  intros Hs Hl. unfold cleanupTrace.
  destruct (get_trace db traceId) as [trace|] eqn:G;
    [|split; [reflexivity|split; [intros s H _; exact H|intros l s H _ _ _; exact H]]].
  destruct (get_trace_some _ _ _ G) as [_ ->].
  assert (Keep : (forall id, id <> traceId -> get_trace db id = get_trace db id) /\
                 (forall s, In s (spans db) -> sp_traceId s <> traceId -> In s (spans db)) /\
                 (forall l s, In l (logs db) -> In s (spans db) -> lg_spanId l = sp_id s ->
                    sp_traceId s <> traceId -> In l (logs db))).
  { split; [reflexivity|split; [intros s H _; exact H|intros l s H _ _ _; exact H]]. }
  destruct (tr_preserve trace) as [[]|]; [exact Keep|exact (deleteTrace_spares _ _ Hs Hl)|].
  destruct (Qle_bool _ _); [exact (deleteTrace_spares _ _ Hs Hl)|exact Keep].
Qed.

(** [preserve()] then the deferred [cleanupTrace] keeps the trace whatever
    the random draw; [discard()] then [cleanupTrace] deletes all of it; on a
    missing trace both calls change nothing (their failure is caught). *)
Theorem preserve_discard_then_cleanup api db random :
  (verifyTrace db (api_traceId api) = inr true ->
     cleanupTrace (api_preserve api db) (api_traceId api) random = api_preserve api db /\
     verifyTrace (api_preserve api db) (api_traceId api) = inr true /\
     trace_fully_deleted (api_discard api db)
       (cleanupTrace (api_discard api db) (api_traceId api) random) (api_traceId api)) /\
  (verifyTrace db (api_traceId api) = inr false ->
     api_preserve api db = db /\ api_discard api db = db).
Proof.
  split.
  - intros Hv. destruct (proj1 (verifyTrace_true _ _) Hv) as [V Gn].
    unfold verifyTrace, db_get_trace. rewrite V.
    unfold api_preserve, api_discard, exec, apply_mutation, updateTracePreserve.
    destruct (get_trace db (api_traceId api)) as [trace|] eqn:G; [|contradiction].
    destruct (get_trace_some _ _ _ G) as [_ Eid].
    lazymatch goal with |- context [patch_trace db _ ?f] =>
      destruct (patch_trace_get db (api_traceId api) f trace (fun _ => eq_refl) G)
        as (db1 & P1 & G1); rewrite P1 end.
    lazymatch goal with |- context [patch_trace db _ ?f] =>
      destruct (patch_trace_get db (api_traceId api) f trace (fun _ => eq_refl) G)
        as (db2 & P2 & G2); rewrite P2 end.
    unfold cleanupTrace. rewrite G1, G2. cbn [tr_preserve tr_id].
    split; [reflexivity|]. split; [reflexivity|].
    rewrite Eid. apply deleteTrace_deletes.
  - intros Hv. destruct (proj1 (verifyTrace_false _ _) Hv) as [_ G].
    unfold api_preserve, api_discard, exec, apply_mutation, updateTracePreserve, patch_trace.
    rewrite G. split; reflexivity.
Qed.

(* ------------------------------------------------------------------------ *)
(** ** Logging, spans in a [withSpan] block, and stored references *)

(** [info], [warn] and [error] of the tracer handle: on a missing span the
    caught failure leaves the database as it was; on a stored span exactly
    one log, with the given severity and message, is appended to that span's
    logs, and no other table or span changes. *)
Theorem api_addLog_appends api sev message db :
  (get_span db (api_spanId api) = None -> api_addLog api sev message db = db) /\
  (verifySpan db (api_spanId api) = inr true ->
     traces (api_addLog api sev message db) = traces db /\
     spans (api_addLog api sev message db) = spans db /\
     logs_by_spanId (api_addLog api sev message db) (api_spanId api) =
       (logs_by_spanId db (api_spanId api) ++
        [mkLog (fresh_id Logs db) (now db) (api_spanId api) (now db) sev message])%list /\
     (forall id, id <> api_spanId api ->
        logs_by_spanId (api_addLog api sev message db) id = logs_by_spanId db id)).
Proof.
  unfold api_addLog, exec, apply_mutation, addLog. split.
  - intros G. unfold db_get_span. rewrite G.
    destruct (valid_id Spans (api_spanId api)); reflexivity.
  - intros Hv. destruct (proj1 (verifySpan_true _ _) Hv) as [V Gn].
    unfold db_get_span. rewrite V.
    destruct (get_span db (api_spanId api)) as [span|] eqn:G; [|contradiction].
    destruct (get_span_some _ _ _ G) as [_ Eid]. rewrite Eid.
    unfold logs_by_spanId. cbn [traces spans logs].
    split; [reflexivity|]. split; [reflexivity|]. rewrite !filter_app. cbn [filter lg_spanId].
    rewrite String.eqb_refl. split; [reflexivity|].
    intros id D. rewrite filter_app. cbn [filter lg_spanId].
    rewrite (proj2 (String.eqb_neq _ _) (not_eq_sym D)), app_nil_r.
    reflexivity.
Qed.

Lemma only_appends_refl tid db : only_appends tid db db.
Proof.
  split; [reflexivity|]. split; [exists []; symmetry; apply app_nil_r|].
  exists []. split; [symmetry; apply app_nil_r|constructor].
Qed.

Lemma only_appends_trans tid a b c :
  only_appends tid a b -> only_appends tid b c -> only_appends tid a c.
Proof.
  intros (Tb & (nl1 & Lb) & (ns1 & Sb & F1)) (Tc & (nl2 & Lc) & (ns2 & Sc & F2)).
  split; [congruence|]. split.
  - exists (nl1 ++ nl2)%list. rewrite Lc, Lb, app_assoc. reflexivity.
  - exists (ns1 ++ ns2)%list. split.
    + rewrite Sc, Sb. unfold span_keys. rewrite map_app, app_assoc. reflexivity.
    + apply Forall_app. split; assumption.
Qed.

Lemma exec_addLog_only_appends tid db spanId sev message :
  only_appends tid db (exec db (MAddLog spanId sev message)).
Proof.
  unfold exec, apply_mutation, addLog.
  destruct (db_get_span db spanId) as [e|[s|]]; try apply only_appends_refl.
  split; [reflexivity|]. split; [eexists; reflexivity|].
  exists []. split; [symmetry; apply app_nil_r|constructor].
Qed.

Lemma exec_updateSpanMetadata_only_appends tid db spanId :
  only_appends tid db (exec db (MUpdateSpanMetadata spanId)).
Proof.
  unfold exec, apply_mutation.
  destruct (db_get_span db spanId) as [e|[s|]]; apply only_appends_refl.
Qed.

Lemma span_keys_patch (l : list Span) (id : Id) (f : Span -> Span) :
  (forall s, sp_id (f s) = sp_id s) -> (forall s, sp_traceId (f s) = sp_traceId s) ->
  span_keys (map (fun s => if String.eqb (sp_id s) id then f s else s) l) = span_keys l.
Proof.
  intros Hi Ht. unfold span_keys. rewrite map_map. apply map_ext. intros s.
  destruct (String.eqb (sp_id s) id); [rewrite Hi, Ht|]; reflexivity.
Qed.

Lemma exec_completeSpan_only_appends tid db spanId e d st r err :
  only_appends tid db (exec db (MCompleteSpan spanId e d st r err)).
Proof.
  unfold exec, apply_mutation, completeSpan, patch_span.
  destruct (get_span db spanId); [|apply only_appends_refl].
  split; [reflexivity|]. split; [exists []; symmetry; apply app_nil_r|].
  exists []. split; [|constructor]. cbn [spans set_spans].
  rewrite app_nil_r. apply span_keys_patch; reflexivity.
Qed.

Lemma createSpan_only_appends db traceId sa db1 id :
  createSpan db traceId sa = inr (db1, id) -> only_appends traceId db db1.
Proof.
  intros H. destruct (createSpan_inv _ _ _ _ _ H) as (_ & _ & ->).
  split; [reflexivity|]. split; [exists []; symmetry; apply app_nil_r|].
  eexists [_]. split; [cbn [spans]; unfold span_keys; rewrite map_app; reflexivity|].
  repeat constructor.
Qed.

(** While a [withSpan] block runs, its awaited calls never touch the traces
    table nor remove a log; spans are only patched in place (same id, same
    trace) or added, and every added span belongs to the handle's trace. *)
Theorem run_span_only_appends infra api b :
  forall spanId db db2 evs r,
    run_span infra api spanId b db = (db2, evs, r) -> only_appends (api_traceId api) db db2.
Proof.
  induction b as [v|e|sev msg k IH|k IH|name body IHb k IHk|w k IH];
    intros spanId db db2 evs r H; cbn [run_span] in H.
  - injection H as <- _ _. apply only_appends_refl.
  - injection H as <- _ _. apply only_appends_refl.
  - destruct (run_span infra api spanId k (exec db (MAddLog spanId sev msg)))
      as [[d1 e1] r1] eqn:R.
    injection H as <- _ _.
    exact (only_appends_trans _ _ _ _ (exec_addLog_only_appends _ _ _ _ _) (IH _ _ _ _ _ R)).
  - destruct (run_span infra api spanId k (exec db (MUpdateSpanMetadata spanId)))
      as [[d1 e1] r1] eqn:R.
    injection H as <- _ _.
    exact (only_appends_trans _ _ _ _ (exec_updateSpanMetadata_only_appends _ _ _)
             (IH _ _ _ _ _ R)).
  - destruct (if infra db then _ else _) as [err|[db1 child]] eqn:C.
    + destruct (run_noop body) as [evs0 [e0|v0]].
      * injection H as <- _ _. apply only_appends_refl.
      * destruct (run_span infra api spanId (k v0) db) as [[d1 e1] r1] eqn:R.
        injection H as <- _ _. exact (IHk _ _ _ _ _ _ R).
    + assert (Hc : only_appends (api_traceId api) db db1).
      { destruct (infra db); [exact (createSpan_only_appends _ _ _ _ _ C)|discriminate C]. }
      destruct (run_span infra api child body db1) as [[d1 e1] r1] eqn:R1.
      pose proof (only_appends_trans _ _ _ _ Hc (IHb _ _ _ _ _ R1)) as H1.
      destruct r1 as [e0|v0].
      * injection H as <- _ _.
        exact (only_appends_trans _ _ _ _ H1 (exec_completeSpan_only_appends _ _ _ _ _ _ _ _)).
      * destruct (run_span infra api spanId (k v0) (exec d1 _)) as [[d2 e2] r2] eqn:R2.
        injection H as <- _ _.
        refine (only_appends_trans _ _ _ _ H1
                  (only_appends_trans _ _ _ _ (exec_completeSpan_only_appends _ _ _ _ _ _ _ _)
                     (IHk _ _ _ _ _ _ R2))).
  - destruct (run_span infra api spanId k db) as [[d1 e1] r1] eqn:R.
    injection H as <- _ _. exact (IH _ _ _ _ _ R).
Qed.

Lemma deleteTrace_logs_attached db traceId :
  logs_attached db -> logs_attached (deleteTrace db traceId).
Proof.
  intros H l In_l. unfold deleteTrace in *. cbv zeta in *.
  unfold delete_trace, set_traces in *. cbn [spans logs] in *.
  rewrite fold_delete_span_logs, fold_delete_log_logs in In_l.
  apply filter_In in In_l as [In_l Nl].
  apply negb_true_iff, not_true_iff_false in Nl.
  destruct (proj1 (in_map_iff _ _ _) (H l In_l)) as (s & Es & In_s).
  rewrite fold_delete_span_spans, fold_delete_log_spans.
  rewrite <- Es. apply in_map, filter_In. split; [exact In_s|].
  apply negb_true_iff, not_true_iff_false. intros Hin. apply Nl.
  apply existsb_eqb_in, in_map_iff in Hin as (s2 & E2 & Hs2).
  apply existsb_eqb_in, in_map, in_concat.
  exists (logs_by_spanId db (sp_id s2)). split.
  - apply (in_map (fun s0 => logs_by_spanId db (sp_id s0))). exact Hs2.
  - apply filter_In. split; [exact In_l|]. apply String.eqb_eq. congruence.
Qed.

(** Every log belongs to a stored span, and this stays so: through every
    mutation the client issues (a failing one changes nothing), through
    [createSpan], and through [cleanupTrace], which removes the logs of the
    spans it removes. *)
Theorem logs_attached_preserved db :
  logs_attached db ->
  (forall m, logs_attached (exec db m)) /\
  (forall traceId sa db1 id, createSpan db traceId sa = inr (db1, id) -> logs_attached db1) /\
  (forall traceId random, logs_attached (cleanupTrace db traceId random)).
Proof.
  intros H. split; [|split].
  - intros m. unfold exec, apply_mutation.
    destruct m as [spanId e d st r err|traceId st|traceId p sr|spanId sev msg|spanId|delay traceId].
    + unfold completeSpan, patch_span. destruct (get_span db spanId) as [sp0|]; [|exact H].
      intros l In_l. cbn [set_spans spans logs] in *. rewrite map_map.
      rewrite (map_ext _ sp_id); [exact (H l In_l)|].
      intros s. destruct (String.eqb (sp_id s) spanId); reflexivity.
    + unfold updateTraceStatus, patch_trace. destruct (get_trace db traceId); exact H.
    + unfold updateTracePreserve, patch_trace. destruct (get_trace db traceId); exact H.
    + unfold addLog, db_get_span. destruct (valid_id Spans spanId); [|exact H].
      destruct (get_span db spanId) as [span|] eqn:G; [|exact H].
      intros l In_l. cbn [spans logs] in *. apply in_app_or in In_l as [In_l|[<-|[]]].
      * exact (H l In_l).
      * cbn [lg_spanId]. apply in_map. exact (proj1 (get_span_some _ _ _ G)).
    + destruct (db_get_span db spanId) as [?|[?|]]; exact H.
    + exact H.
  - intros traceId sa db1 id C. destruct (createSpan_inv _ _ _ _ _ C) as (_ & _ & ->).
    intros l In_l. cbn [spans logs] in *. rewrite map_app. apply in_or_app. left.
    exact (H l In_l).
  - intros traceId random. unfold cleanupTrace.
    destruct (get_trace db traceId); [|exact H].
    destruct (tr_preserve t) as [[]|]; [exact H|apply deleteTrace_logs_attached, H|].
    destruct (Qle_bool _ _); [apply deleteTrace_logs_attached, H|exact H].
Qed.

(** The trace context a successful [setupTraceContext] hands to
    [ctx.runTracedMutation] and the like ([__traceContext]) makes the called
    function's setup succeed inside the caller's trace: its span is a child
    of the caller's span, and the per-trace settings carried by the context
    are passed on unchanged. *)
Theorem nested_call_joins_callers_trace db ec startTime functionName sampleRate
    retentionMinutes preserveErrors sfn sargs db1 out
    startTime' functionName' sampleRate' retentionMinutes' preserveErrors' sfn' sargs' :
  setupTraceContext db ec startTime functionName sampleRate retentionMinutes
    preserveErrors sfn sargs = inr (db1, out) ->
  exists db2 out2 sp,
    setupTraceContext db1 (Some (so_traceContext out)) startTime' functionName'
      sampleRate' retentionMinutes' preserveErrors' sfn' sargs' = inr (db2, out2) /\
    traces db2 = traces db1 /\
    spans db2 = (spans db1 ++ [sp])%list /\
    sp_traceId sp = so_traceId out /\
    sp_parentSpanId sp = Some (so_spanId out) /\
    so_traceId out2 = so_traceId out /\
    so_spanId out2 = sp_id sp /\
    so_isRoot out2 = false /\
    tc_sampleRate (so_traceContext out2) = tc_sampleRate (so_traceContext out) /\
    tc_retentionMinutes (so_traceContext out2) = tc_retentionMinutes (so_traceContext out) /\
    tc_preserveErrors (so_traceContext out2) = tc_preserveErrors (so_traceContext out).
Proof.
  intros H. unfold setupTraceContext in H.
  destruct ec as [ec|];
    [destruct (truthy_str (Some (tc_traceId ec))) eqn:T|];
    [|unfold setupRoot, createTrace in H; discriminate H..].
  destruct (createSpan db (tc_traceId ec) _) as [e|[db1' sid]] eqn:C; [discriminate H|].
  injection H as <- <-.
  destruct (createSpan_inv _ _ _ _ _ C) as (Vt & -> & ->).
  unfold setupTraceContext. cbn [so_traceContext tc_traceId tc_spanId so_traceId so_spanId].
  rewrite T. rewrite createSpan_valid; cbn [sa_parentSpanId];
    rewrite ?(truthy_nonempty _ (fresh_id_nonempty Spans db));
    [| exact Vt | apply valid_fresh_id].
  do 3 eexists. split; [reflexivity|]. cbn.
  repeat split; reflexivity.
Qed.


(* ------------------------------------------------------------------------ *)
(** ** Examples *)

Ltac solve_nodup := repeat constructor; cbn; intuition discriminate.

(** Arguments [{x: 1}] passed on with the token ["ctx"] come back split. *)
Lemma extractTraceContext_argsWithTrace_witness :
  extractTraceContext (argsWithTrace [("x", VNum 1)] (VStr "ctx")) =
    (Some (VStr "ctx"), [("x", VNum 1)]).
Proof.
  exact (proj2 (extractTraceContext_argsWithTrace [("x", VNum 1)] (VStr "ctx")) eq_refl).
Defined.

(** [logArgs: true] on [{x: 1, __traceContext: ...}] logs [{x: 1}]. *)
Lemma logged_args_never_hold_traceContext_witness :
  prepareLogArgs (snd (extractTraceContext [("x", VNum 1); ("__traceContext", VStr "c")]))
    (LABool true) = Some [("x", VNum 1)] /\
  obj_get [("x", VNum 1)] "__traceContext" = None.
Proof.
  split; [reflexivity|].
  apply (logged_args_never_hold_traceContext
           [("x", VNum 1); ("__traceContext", VStr "c")] (LABool true)).
  reflexivity.
Defined.

(** Setting [{k: 2}] on trace [t1] over [{a: 1, k: 0}]: [a] is kept and
    [k] updated; on the malformed id [bogus] the call throws. *)
Lemma updateTraceMetadata_merges_witness :
  (exists db' meta',
     updateTraceMetadata example_db
       (fun id => if String.eqb id "t1" then Some [("a", VNum 1); ("k", VNum 0)] else None)
       "t1" [("k", VNum 2)] = inr (db', meta') /\
     exists m, meta' "t1" = Some m /\ obj_get m "a" = Some (VNum 1) /\
               obj_get m "k" = Some (VNum 2)) /\
  updateTraceMetadata example_db (fun _ => None) "bogus" [("k", VNum 2)] =
    inl (invalid_id_error "bogus").
Proof.
  assert (Hnd : NoDup (map fst [("k", VNum 2)])) by solve_nodup.
  split.
  - destruct (proj2 (proj2 (updateTraceMetadata_merges example_db
                     (fun id => if String.eqb id "t1"
                                then Some [("a", VNum 1); ("k", VNum 0)] else None)
                     "t1" [("k", VNum 2)] Hnd)) eq_refl)
      as (db' & meta' & E & (m & Em & Hk) & _).
    exists db', meta'. split; [exact E|]. exists m. split; [exact Em|].
    rewrite !Hk. split; reflexivity.
  - exact (proj1 (updateTraceMetadata_merges example_db (fun _ => None) "bogus"
                    [("k", VNum 2)] Hnd) eq_refl).
Defined.

(** Setting [{k: 1}] on span [s1] over [{k: 0, j: 2}]; on the malformed id
    [bogus] the call throws. *)
Lemma updateSpanMetadata_merges_witness :
  (exists meta',
     updateSpanMetadata example_db
       (fun id => if String.eqb id "s1" then Some [("k", VNum 0); ("j", VNum 2)] else None)
       "s1" [("k", VNum 1)] = inr meta' /\
     exists m, meta' "s1" = Some m /\ obj_get m "k" = Some (VNum 1) /\
               obj_get m "j" = Some (VNum 2)) /\
  updateSpanMetadata example_db (fun _ => None) "bogus" [("k", VNum 1)] =
    inl (invalid_id_error "bogus").
Proof.
  assert (Hnd : NoDup (map fst [("k", VNum 1)])) by solve_nodup.
  split.
  - destruct (proj2 (proj2 (updateSpanMetadata_merges example_db
                     (fun id => if String.eqb id "s1"
                                then Some [("k", VNum 0); ("j", VNum 2)] else None)
                     "s1" [("k", VNum 1)] Hnd)) eq_refl)
      as (meta' & E & (m & Em & Hk) & _).
    exists meta'. split; [exact E|]. exists m. split; [exact Em|].
    rewrite !Hk. split; reflexivity.
  - exact (proj1 (updateSpanMetadata_merges example_db (fun _ => None) "bogus"
                    [("k", VNum 1)] Hnd) eq_refl).
Defined.

(** Without a limit, the pending traces of user [anonymous] in [example_db]. *)
Lemma listTraces_sound_complete_witness :
  listTraces example_db (Some Pending) (Some "anonymous") None =
    [mkTrace "t1" 1 Pending 0 None 1 (Some "anonymous")].
Proof.
  rewrite (proj2 (proj2 (listTraces_sound_complete example_db (Some Pending)
                           (Some "anonymous") None)) (or_introl eq_refl)).
  reflexivity.
Defined.

Lemma cleanupTrace_spares_other_traces_witness :
  get_trace (cleanupTrace two_traces_db "t1" 0) "t2" = get_trace two_traces_db "t2" /\
  In (mkLog "l2" 6 "s2" 6 Info "two") (logs (cleanupTrace two_traces_db "t1" 0)).
Proof.
  assert (Hs : NoDup (map sp_id (spans two_traces_db))) by solve_nodup.
  assert (Hl : NoDup (map lg_id (logs two_traces_db))) by solve_nodup.
  destruct (cleanupTrace_spares_other_traces two_traces_db "t1" 0 Hs Hl) as (G & _ & L).
  split.
  - apply G. discriminate.
  - apply (L _ (mkSpan "s2" 4 "t2" None "b" Backend 4 None None Pending None VUndefined
                  VUndefined None)).
    + right. left. reflexivity.
    + right. left. reflexivity.
    + reflexivity.
    + discriminate.
Defined.

(** [preserve()] on [t1] of [example_db], whose rate is 0. *)
Lemma preserve_discard_then_cleanup_witness :
  cleanupTrace (api_preserve (mkTracingAPI "t1" "s1" default_tracer) example_db) "t1" (1#2) =
    api_preserve (mkTracingAPI "t1" "s1" default_tracer) example_db.
Proof.
  exact (proj1 (proj1 (preserve_discard_then_cleanup (mkTracingAPI "t1" "s1" default_tracer)
                         example_db (1#2)) eq_refl)).
Defined.

(** [warn("slow")] on span [s1]. *)
Lemma api_addLog_appends_witness :
  logs_by_spanId (api_addLog (mkTracingAPI "t1" "s1" default_tracer) Warn "slow" example_db)
    "s1" =
  (logs_by_spanId example_db "s1" ++
   [mkLog (fresh_id Logs example_db) (now example_db) "s1" (now example_db) Warn "slow"])%list.
Proof.
  exact (proj1 (proj2 (proj2 (proj2 (api_addLog_appends (mkTracingAPI "t1" "s1" default_tracer)
                                      Warn "slow" example_db) eq_refl)))).
Defined.

(** A block that logs, then runs a nested span. *)
Lemma run_span_only_appends_witness :
  exists db2 evs r,
    run_span (fun _ => true) (mkTracingAPI "t1" "s1" default_tracer) "s1"
      (BLog Info "hi" (BWithSpan "child" (BRet (VNum 1)) (fun v => BRet v))) example_db =
      (db2, evs, r) /\
    only_appends "t1" example_db db2.
Proof.
  do 3 eexists. split; [reflexivity|].
  exact (run_span_only_appends (fun _ => true) (mkTracingAPI "t1" "s1" default_tracer)
           (BLog Info "hi" (BWithSpan "child" (BRet (VNum 1)) (fun v => BRet v)))
           "s1" example_db _ _ _ eq_refl).
Defined.

(** [example_db]'s log is attached, and stays so after one more log. *)
Lemma logs_attached_preserved_witness :
  logs_attached (exec example_db (MAddLog "s1" Info "x")).
Proof.
  assert (H : logs_attached example_db).
  { intros l [<-|[]]. left. reflexivity. }
  exact (proj1 (logs_attached_preserved example_db H) _).
Defined.

(** A call under span [s1] of [t1], then a call nested in it. *)
Lemma nested_call_joins_callers_trace_witness :
  exists db1 out,
    setupTraceContext example_db (Some (mkTraceContext "t1" "s1" None None None)) 10
      "parent" (1#10) 120 true None VUndefined = inr (db1, out) /\
    exists db2 out2 sp,
      setupTraceContext db1 (Some (so_traceContext out)) 11 "child" (1#10) 120 true None
        VUndefined = inr (db2, out2) /\
      sp_traceId sp = "t1" /\ sp_parentSpanId sp = Some (so_spanId out).
Proof.
  eexists _, _. split; [reflexivity|].
  destruct (nested_call_joins_callers_trace example_db
              (Some (mkTraceContext "t1" "s1" None None None)) 10 "parent" (1#10) 120 true
              None VUndefined _ _ 11 "child" (1#10) 120 true None VUndefined eq_refl)
    as (db2 & out2 & sp & E & _ & _ & T & P & _).
  exists db2, out2, sp. split; [exact E|]. split; [exact T|exact P].
Defined.

